(** * OL thread pool, message buffer and connect() shim: a shallow embedding

    The development follows three source units of the repository:
    - [ol_ThreadPool.h]: the [ThreadPool<IsDynamic>] template (constructors,
      [stop], [addTask], [submitTask], [worker], [manager]);
    - [ol_Buffer.h]: the [Buffer] class (mode 1 framing);
    - the LD_PRELOAD shim: [is_blocked] and the interposed [connect].

    [size_t] values are integers in [Z] with the wrap-around at [2^64] written
    out; containers are stdpp finite maps and lists; threads, condition
    variables and [stderr] are observed through an event trace. *)

From stdpp Require Import base numbers option list gmap strings.
From Stdlib Require Import ZArith Lia.
From Stdlib.Strings Require Import Byte Ascii.
From Equations Require Import Equations.

Local Open Scope Z_scope.

(** ** [size_t] arithmetic *)

Module SizeT.

Definition bits : Z := 64.
Definition modulus : Z := 2 ^ bits.

Definition wrap (z : Z) : Z := z mod modulus.

Definition add (a b : Z) : Z := wrap (a + b).
Definition sub (a b : Z) : Z := wrap (a - b).
Definition mul (a b : Z) : Z := wrap (a * b).

(** Unsigned division; a zero divisor is undefined behaviour. *)
Definition div (a b : Z) : option Z :=
  if decide (b = 0) then None else Some (a / b).

Definition in_range (z : Z) : Prop := 0 <= z < modulus.

(** No container holds more elements than [PTRDIFF_MAX]. *)
Definition ptrdiff_max : Z := 2 ^ 63 - 1.

End SizeT.

(** ** Exceptions and the observable trace *)

Inductive exn : Type :=
| StdException (what : string)   (* derived from std::exception *)
| InvalidArgument (what : string)
| RuntimeError (what : string)
| ForeignException.              (* anything not derived from std::exception *)

(** [catch (const std::exception& e)] binds [e.what()] for every class of the
    standard hierarchy and lets everything else through. *)
Definition as_std_exception (e : exn) : option string :=
  match e with
  | StdException w | InvalidArgument w | RuntimeError w => Some w
  | ForeignException => None
  end.

Inductive Event : Type :=
| EvSpawnWorker (tid : nat)
| EvSpawnManager (tid : nat)
| EvJoin (tid : nat)
| EvNotifyNotEmpty (all : bool)
| EvNotifyNotFull (all : bool)
| EvNotifyManager
| EvStderr (line : string)
| EvRun (task : nat).

#[global] Instance Event_eq_dec : EqDecision Event.
Proof. solve_decision. Defined.

(** The part of the process outside the pool object: the thread-id allocator
    behind [std::thread]'s constructor and the trace of observable actions. *)
Record World : Type := mkWorld {
  next_tid : nat;
  trace : list Event
}.

Definition emit (e : Event) (w : World) : World :=
  {| next_tid := next_tid w; trace := trace w ++ [e] |}.

(** [std::thread]: either not-a-thread or a joinable thread of execution. *)
Inductive thread : Type :=
| NotAThread
| Joinable (tid : nat).

(** ** Tasks *)

(** A queued [std::function<void()>]: it may be empty, and when invoked it
    either returns or lets an exception escape. *)
Record Task : Type := mkTask {
  task_id : nat;
  task_callable : bool;
  task_body : option exn
}.

(** ** The pool object *)

Inductive QueueFullPolicy : Type := kReject | kBlock | kTimeout.

#[global] Instance QueueFullPolicy_eq_dec : EqDecision QueueFullPolicy.
Proof. solve_decision. Defined.

Inductive TypeEmpty : Type := type_empty.

Record DynamicMembers : Type := mkDynamic {
  minThreads : Z;
  maxThreads : Z;
  idleThreads : Z;
  workerExitNum : Z;
  checkInterval : Z;
  managerThread : thread;
  workerExitId_deque : list nat
}.

(** [std::conditional_t<IsDynamic, unordered_map<id, thread>, vector<thread>>] *)
Definition workers_t (IsDynamic : bool) : Type :=
  if IsDynamic then gmap nat thread else list thread.

(** [std::conditional_t<IsDynamic, DynamicMembers, TypeEmpty>] *)
Definition dynamic_t (IsDynamic : bool) : Type :=
  if IsDynamic then DynamicMembers else TypeEmpty.

Record ThreadPool (IsDynamic : bool) : Type := mkPool {
  m_workers : workers_t IsDynamic;
  m_taskQueue : list Task;
  m_stop : bool;
  m_activeWorkers : Z;
  m_maxQueueSize : Z;
  m_queueFullPolicy : QueueFullPolicy;
  m_timeoutMS : Z;
  m_dynamic : dynamic_t IsDynamic
}.

Arguments mkPool {IsDynamic}.
Arguments m_workers {IsDynamic}.
Arguments m_taskQueue {IsDynamic}.
Arguments m_stop {IsDynamic}.
Arguments m_activeWorkers {IsDynamic}.
Arguments m_maxQueueSize {IsDynamic}.
Arguments m_queueFullPolicy {IsDynamic}.
Arguments m_timeoutMS {IsDynamic}.
Arguments m_dynamic {IsDynamic}.

Section Setters.
Context {D : bool}.

Definition set_workers (v : workers_t D) (p : ThreadPool D) : ThreadPool D :=
  mkPool v (m_taskQueue p) (m_stop p) (m_activeWorkers p) (m_maxQueueSize p)
         (m_queueFullPolicy p) (m_timeoutMS p) (m_dynamic p).

Definition set_taskQueue (q : list Task) (p : ThreadPool D) : ThreadPool D :=
  mkPool (m_workers p) q (m_stop p) (m_activeWorkers p) (m_maxQueueSize p)
         (m_queueFullPolicy p) (m_timeoutMS p) (m_dynamic p).

Definition set_stop (b : bool) (p : ThreadPool D) : ThreadPool D :=
  mkPool (m_workers p) (m_taskQueue p) b (m_activeWorkers p) (m_maxQueueSize p)
         (m_queueFullPolicy p) (m_timeoutMS p) (m_dynamic p).

Definition set_activeWorkers (n : Z) (p : ThreadPool D) : ThreadPool D :=
  mkPool (m_workers p) (m_taskQueue p) (m_stop p) n (m_maxQueueSize p)
         (m_queueFullPolicy p) (m_timeoutMS p) (m_dynamic p).

Definition set_policy (q : QueueFullPolicy) (t : Z) (p : ThreadPool D) : ThreadPool D :=
  mkPool (m_workers p) (m_taskQueue p) (m_stop p) (m_activeWorkers p) (m_maxQueueSize p)
         q t (m_dynamic p).

Definition set_dynamic (d : dynamic_t D) (p : ThreadPool D) : ThreadPool D :=
  mkPool (m_workers p) (m_taskQueue p) (m_stop p) (m_activeWorkers p) (m_maxQueueSize p)
         (m_queueFullPolicy p) (m_timeoutMS p) d.
End Setters.

Definition set_idleThreads (n : Z) (d : DynamicMembers) : DynamicMembers :=
  mkDynamic (minThreads d) (maxThreads d) n (workerExitNum d) (checkInterval d)
            (managerThread d) (workerExitId_deque d).

Definition set_workerExitNum (n : Z) (d : DynamicMembers) : DynamicMembers :=
  mkDynamic (minThreads d) (maxThreads d) (idleThreads d) n (checkInterval d)
            (managerThread d) (workerExitId_deque d).

Definition set_managerThread (th : thread) (d : DynamicMembers) : DynamicMembers :=
  mkDynamic (minThreads d) (maxThreads d) (idleThreads d) (workerExitNum d) (checkInterval d)
            th (workerExitId_deque d).

Definition set_exitDeque (q : list nat) (d : DynamicMembers) : DynamicMembers :=
  mkDynamic (minThreads d) (maxThreads d) (idleThreads d) (workerExitNum d) (checkInterval d)
            (managerThread d) q.

(** [m_workers.size()] as a [size_t]. *)
Definition workers_size {D : bool} : workers_t D -> Z :=
  match D with
  | true => fun m : gmap nat thread => Z.of_nat (size m)
  | false => fun v : list thread => Z.of_nat (length v)
  end.

Definition getWorkerNum {D} (p : ThreadPool D) : Z := workers_size (m_workers p).
Definition getTaskNum {D} (p : ThreadPool D) : Z := Z.of_nat (length (m_taskQueue p)).
Definition isRunning {D} (p : ThreadPool D) : bool := negb (m_stop p).

(** ** Constructors *)

(** [m_activeWorkers.fetch_add(1)] followed by the creation of one worker
    thread, which the OS gives the next free id. *)
Definition spawn_fixed (st : World * ThreadPool false) : World * ThreadPool false :=
  let '(w, p) := st in
  let tid := next_tid w in
  let w' := emit (EvSpawnWorker tid) {| next_tid := S tid; trace := trace w |} in
  (w', set_workers (m_workers p ++ [Joinable tid] : workers_t false)
         (set_activeWorkers (SizeT.add (m_activeWorkers p) 1) p)).

Definition spawn_dynamic (st : World * ThreadPool true) : World * ThreadPool true :=
  let '(w, p) := st in
  let tid := next_tid w in
  let w' := emit (EvSpawnWorker tid) {| next_tid := S tid; trace := trace w |} in
  (* unordered_map::emplace keeps an existing entry *)
  let ws : gmap nat thread := m_workers p in
  let ws' := match ws !! tid with Some _ => ws | None => <[tid := Joinable tid]> ws end in
  (w', set_workers (ws' : workers_t true)
         (set_activeWorkers (SizeT.add (m_activeWorkers p) 1) p)).

(** [while (n > 0) { body; --n; }] for a [size_t] counter. *)
Definition repeat_size_t {A} (n : Z) (body : A -> A) (a : A) : A :=
  Nat.iter (Z.to_nat n) body a.

Definition initial_pool {D} (ws : workers_t D) (maxQueueSize : Z) (d : dynamic_t D)
  : ThreadPool D :=
  mkPool ws [] false 0 maxQueueSize kReject 500 d.

(** Fixed mode: [ThreadPool(size_t threadNum, size_t maxQueueSize = 0)]. *)
Definition ThreadPool_fixed (w : World) (threadNum maxQueueSize : Z)
  : World * ThreadPool false :=
  let p := initial_pool ([] : workers_t false) maxQueueSize type_empty in
  if decide (threadNum = 0) then (w, set_stop true p)
  else repeat_size_t threadNum spawn_fixed (w, p).

(** Scalars of [m_dynamic] that the constructor's early return leaves
    unassigned. *)
Record Indeterminate : Type := mkIndeterminate {
  ind_min : Z; ind_max : Z; ind_idle : Z; ind_exit : Z; ind_interval : Z
}.

Definition default_dynamic (u : Indeterminate) : DynamicMembers :=
  mkDynamic (ind_min u) (ind_max u) (ind_idle u) (ind_exit u) (ind_interval u)
            NotAThread [].

Definition spawn_manager (st : World * ThreadPool true) : World * ThreadPool true :=
  let '(w, p) := st in
  let tid := next_tid w in
  let w' := emit (EvSpawnManager tid) {| next_tid := S tid; trace := trace w |} in
  (w', set_dynamic (set_managerThread (Joinable tid) (m_dynamic p) : dynamic_t true) p).

(** Dynamic mode:
    [ThreadPool(size_t minThreadNum, size_t maxThreadNum, size_t maxQueueSize,
                std::chrono::seconds checkInterval)]. *)
Definition ThreadPool_dynamic (u : Indeterminate) (w : World)
    (minThreadNum maxThreadNum maxQueueSize interval : Z)
  : World * (exn + ThreadPool true) :=
  let p := initial_pool (∅ : workers_t true) maxQueueSize
                        (default_dynamic u : dynamic_t true) in
  if decide (maxThreadNum < minThreadNum) then
    (w, inl (InvalidArgument "Invalid thread number range"))
  else if decide (minThreadNum = maxThreadNum /\ minThreadNum = 0) then
    (w, inr (set_stop true p))
  else
    let d := mkDynamic minThreadNum maxThreadNum 0 0 interval NotAThread [] in
    let p := set_dynamic (d : dynamic_t true) p in
    let needThreads := if decide (minThreadNum = 0) then 1 else minThreadNum in
    let '(w', p') := spawn_manager (repeat_size_t needThreads spawn_dynamic (w, p)) in
    (w', inr p').

(** ** [if constexpr (IsDynamic)] *)

Definition if_dynamic {D : bool} (f : DynamicMembers -> DynamicMembers)
  : ThreadPool D -> ThreadPool D :=
  match D with
  | true => fun p : ThreadPool true => set_dynamic (f (m_dynamic p) : dynamic_t true) p
  | false => fun p => p
  end.

Definition dynamic_get {D : bool} {A : Type} (f : DynamicMembers -> A) (dflt : A)
  : ThreadPool D -> A :=
  match D with
  | true => fun p : ThreadPool true => f (m_dynamic p)
  | false => fun _ => dflt
  end.

(** The thread objects of [m_workers], in iteration order. *)
Definition workers_threads {D : bool} : workers_t D -> list thread :=
  match D with
  | true => fun m : gmap nat thread => (map_to_list m).*2
  | false => fun v : list thread => v
  end.

Definition workers_clear {D : bool} : workers_t D :=
  match D with
  | true => (∅ : gmap nat thread)
  | false => ([] : list thread)
  end.

(** ** [stop] *)

(** [std::atomic_bool::compare_exchange_strong(expected, desired)]: whether
    the exchange happened and the value the atomic holds afterwards. *)
Definition compare_exchange_strong (cur expected desired : bool) : bool * bool :=
  if bool_decide (cur = expected) then (true, desired) else (false, cur).

(** [if (th.joinable()) th.join();] *)
Definition join_thread (w : World) (th : thread) : World :=
  match th with
  | Joinable tid => emit (EvJoin tid) w
  | NotAThread => w
  end.

(** The dynamic-mode prologue of [stop]: wake and join the manager, reset its
    thread object, clear the exit-id deque. *)
Definition stop_manager {D : bool} (st : World * ThreadPool D) : World * ThreadPool D :=
  let '(w, p) := st in
  match dynamic_get (fun d => Some (managerThread d)) None p with
  | Some mgr =>
      let w1 := join_thread (emit EvNotifyManager w) mgr in
      (w1, if_dynamic (fun d => set_exitDeque [] (set_managerThread NotAThread d)) p)
  | None => (w, p)
  end.

Definition stop {D : bool} (st : World * ThreadPool D) : World * ThreadPool D :=
  let '(w, p) := st in
  let '(exchanged, flag) := compare_exchange_strong (m_stop p) false true in
  if negb exchanged then (w, p)
  else
    let '(w1, p1) := stop_manager (w, set_stop flag p) in
    let w2 := emit (EvNotifyNotFull true) (emit (EvNotifyNotEmpty true) w1) in
    (* the bounded sleep loop on m_activeWorkers only reads *)
    let w3 := foldl join_thread w2 (workers_threads (m_workers p1)) in
    (w3, set_workers workers_clear p1).

(** ** Waiting on a condition variable *)

(** What other threads may do to the queue and the stop flag while the caller
    is parked with [m_taskQueueMutex] released. *)
Inductive Interference : Type :=
| IPop                (* a worker takes the front task *)
| IPush (t : Task)    (* another producer enqueues *)
| IStop               (* stop() wins the exchange on m_stop *)
| ISpurious.          (* a wake-up with nothing changed *)

(** A schedule: each interference with the milliseconds that pass before it. *)
Definition Schedule : Type := list (Z * Interference).

Definition interfere {D} (i : Interference) (p : ThreadPool D) : ThreadPool D :=
  match i with
  | IPop => set_taskQueue (tail (m_taskQueue p)) p
  | IPush t => set_taskQueue (m_taskQueue p ++ [t]) p
  | IStop => set_stop true p
  | ISpurious => p
  end.

(** [cv.wait(lock, pred)]: [while (!pred()) wait(lock);]. [None] when the
    schedule never makes [pred] true: the caller stays parked. *)
Fixpoint cv_wait {D} (pred : ThreadPool D -> bool) (env : Schedule) (p : ThreadPool D)
  : option (ThreadPool D * Schedule) :=
  if pred p then Some (p, env)
  else match env with
       | [] => None
       | (_, i) :: env' => cv_wait pred env' (interfere i p)
       end.

(** [cv.wait_for(lock, budget, pred)]: the result of [pred] on return, the
    state then, the rest of the schedule and the time spent waiting. *)
Fixpoint cv_wait_for {D} (pred : ThreadPool D -> bool) (budget : Z) (env : Schedule)
    (p : ThreadPool D) : bool * ThreadPool D * Schedule * Z :=
  if pred p then (true, p, env, 0)
  else match env with
       | [] => (false, p, [], budget)
       | (dt, i) :: env' =>
           if dt <=? budget then
             let '(r, p', rest, spent) :=
               cv_wait_for pred (budget - dt) env' (interfere i p) in
             (r, p', rest, dt + spent)
           else (false, p, (dt - budget, i) :: env', budget)
       end.

(** ** [addTask] *)

(** The [return] statement that ended a call, for those that fail. *)
Inductive FailSite : Type :=
| StoppedOnEntry      (* line 424 *)
| RejectedFull        (* case kReject *)
| TimedOut            (* case kTimeout, wait_for returned false *)
| StoppedAfterWait.   (* line 452 *)

Inductive Completion : Type :=
| Succeeded
| Failed (site : FailSite)
| ParkedForever       (* blocked in wait() with no wake-up to come *)
| OutOfFuel.

Definition returned (c : Completion) : option bool :=
  match c with
  | Succeeded => Some true
  | Failed _ => Some false
  | ParkedForever | OutOfFuel => None
  end.

Record Run (D : bool) : Type := mkRun {
  run_completion : Completion;
  run_world : World;
  run_pool : ThreadPool D;
  run_env : Schedule;
  run_waited : Z
}.
Arguments mkRun {D}.
Arguments run_completion {D}.
Arguments run_world {D}.
Arguments run_pool {D}.
Arguments run_env {D}.
Arguments run_waited {D}.

Definition queue_full {D} (p : ThreadPool D) : bool :=
  m_maxQueueSize p <=? Z.of_nat (length (m_taskQueue p)).

(** The predicate both waits use:
    [m_taskQueue.size() < m_maxQueueSize || m_stop]. *)
Definition not_full_or_stopped {D} (p : ThreadPool D) : bool :=
  (Z.of_nat (length (m_taskQueue p)) <? m_maxQueueSize p) || m_stop p.

(** The [while (m_taskQueue.size() >= m_maxQueueSize && !m_stop)] loop.
    [inl] is a [return] from inside the loop, [inr] falls out of it. *)
Fixpoint addTask_loop {D} (fuel : nat) (env : Schedule) (p : ThreadPool D) (waited : Z)
  : Completion * ThreadPool D * Schedule * Z + ThreadPool D * Schedule * Z :=
  match fuel with
  | O => inl (OutOfFuel, p, env, waited)
  | S fuel' =>
      if queue_full p && negb (m_stop p) then
        match m_queueFullPolicy p with
        | kReject => inl (Failed RejectedFull, p, env, waited)
        | kBlock =>
            match cv_wait not_full_or_stopped env p with
            | None => inl (ParkedForever, p, [], waited)
            | Some (p', env') => addTask_loop fuel' env' p' waited
            end
        | kTimeout =>
            let '(result, p', env', spent) :=
              cv_wait_for not_full_or_stopped (m_timeoutMS p) env p in
            if negb result then inl (Failed TimedOut, p', env', waited + spent)
            else addTask_loop fuel' env' p' (waited + spent)
        end
      else inr (p, env, waited)
  end.

Definition addTask {D} (fuel : nat) (task : Task) (env : Schedule)
    (st : World * ThreadPool D) : Run D :=
  let '(w, p) := st in
  if m_stop p then mkRun (Failed StoppedOnEntry) w p env 0
  else
    let after_loop :=
      if 0 <? m_maxQueueSize p then addTask_loop fuel env p 0
      else inr (p, env, 0) in
    match after_loop with
    | inl (c, p', env', waited) => mkRun c w p' env' waited
    | inr (p', env', waited) =>
        if m_stop p' then mkRun (Failed StoppedAfterWait) w p' env' waited
        else mkRun Succeeded (emit (EvNotifyNotEmpty false) w)
                   (set_taskQueue (m_taskQueue p' ++ [task]) p') env' waited
    end.

(** ** [submitTask] *)

(** The caller's [std::future]: waiting for the packaged task with the given
    id, or already holding an exception. *)
Inductive Future : Type :=
| Pending (task : nat)
| Broken (e : exn).

(** The closure handed to [addTask] invokes the shared [packaged_task], which
    stores whatever the user function does in the shared state and returns. *)
Definition packaged (id : nat) : Task := mkTask id true None.

Definition submitTask {D} (fuel : nat) (id : nat) (env : Schedule)
    (st : World * ThreadPool D) : Run D * option (bool * Future) :=
  let r := addTask fuel (packaged id) env st in
  match returned (run_completion r) with
  | None => (r, None)
  | Some true => (r, Some (true, Pending id))
  | Some false =>
      let p := run_pool r in
      let what :=
        if m_stop p then "ThreadPool has been stopped"
        else match m_queueFullPolicy p with
             | kReject => "Task queue full (Reject policy)"
             | kBlock => "Task submission failed in block policy (ThreadPool stopped)"
             | kTimeout => "Task queue full (Timeout policy)"
             end in
      (r, Some (false, Broken (RuntimeError what)))
  end.

(** ** [worker] *)

Inductive WorkerPc : Type :=
| AtLoopHead       (* about to test [while (!m_stop)] *)
| ParkedOnQueue    (* inside [m_taskQueueNotEmpty_condVar.wait] *)
| Finished.        (* the thread function has returned *)

Definition waitCond {D} (p : ThreadPool D) : bool :=
  negb (bool_decide (m_taskQueue p = []))
  || m_stop p
  || dynamic_get (fun d => 0 <? workerExitNum d) false p.

(** [if (task) task();] *)
Definition invoke (t : Task) (w : World) : World * option exn :=
  if task_callable t then (emit (EvRun (task_id t)) w, task_body t) else (w, None).

(** The inner [try { ... } catch (const std::exception& e) { ... }
    catch (...) { ... }]: the exception, if any, that leaves the statement. *)
Definition dispatch (t : Task) (w : World) : World * option exn :=
  let '(w1, thrown) := invoke t w in
  match thrown with
  | None => (w1, None)
  | Some e =>
      match as_std_exception e with
      | Some what => (emit (EvStderr (String.append "Task error: " what)) w1, None)
      | None => (emit (EvStderr "Unknown task error") w1, None)
      end
  end.

(** The code after the outer [try]: leave the active count and, in dynamic
    mode, the idle count; report the id unless the pool has stopped. *)
Definition worker_epilogue {D} (tid : nat) (st : World * ThreadPool D)
  : World * ThreadPool D :=
  let '(w, p) := st in
  let p1 := set_activeWorkers (SizeT.sub (m_activeWorkers p) 1) p in
  (w, if_dynamic (fun d =>
        let d1 := set_idleThreads (SizeT.sub (idleThreads d) 1) d in
        if m_stop p then d1
        else set_exitDeque (workerExitId_deque d1 ++ [tid]) d1) p1).

Definition worker_prologue {D} (p : ThreadPool D) : ThreadPool D :=
  if_dynamic (fun d => set_idleThreads (SizeT.add (idleThreads d) 1) d) p.

(** One pass of the worker loop, from the loop test to the next one. *)
Definition worker_iter {D} (tid : nat) (st : World * ThreadPool D)
  : World * ThreadPool D * WorkerPc :=
  let '(w, p) := st in
  if m_stop p then (worker_epilogue tid (w, p), Finished)
  else if negb (waitCond p) then (w, p, ParkedOnQueue)
  else if m_stop p then (worker_epilogue tid (w, p), Finished)
  else if dynamic_get (fun d => 0 <? workerExitNum d) false p then
    let p1 := if_dynamic (fun d => set_workerExitNum (SizeT.sub (workerExitNum d) 1) d) p in
    (worker_epilogue tid (w, p1), Finished)
  else
    match m_taskQueue p with
    | [] => (w, p, AtLoopHead)
    | task :: rest =>
        let p1 := set_taskQueue rest p in
        let w1 := if decide (m_queueFullPolicy p = kReject) then w
                  else emit (EvNotifyNotFull false) w in
        let p2 := if_dynamic (fun d => set_idleThreads (SizeT.sub (idleThreads d) 1) d) p1 in
        let '(w2, escaped) := dispatch task w1 in
        match escaped with
        | Some _ =>
            (worker_epilogue tid
               (emit (EvStderr "Worker thread unexpected exception") w2, p2), Finished)
        | None =>
            (w2, if_dynamic (fun d => set_idleThreads (SizeT.add (idleThreads d) 1) d) p2,
             AtLoopHead)
        end
    end.

(** The loop itself: iterate until the thread parks or returns. *)
Fixpoint worker_loop {D} (fuel : nat) (tid : nat) (st : World * ThreadPool D)
  : World * ThreadPool D * WorkerPc :=
  match fuel with
  | O => (st, AtLoopHead)
  | S fuel' =>
      let '(st', pc) := worker_iter tid st in
      match pc with
      | AtLoopHead => worker_loop fuel' tid st'
      | ParkedOnQueue | Finished => (st', pc)
      end
  end.

Definition worker {D} (fuel : nat) (tid : nat) (st : World * ThreadPool D)
  : World * ThreadPool D * WorkerPc :=
  worker_loop fuel tid (fst st, worker_prologue (snd st)).

(** ** [manager] *)

(** Step 1 of a cycle, for one reported id: join the thread and erase it. *)
Definition reap_one (st : World * gmap nat thread) (exitId : nat)
  : World * gmap nat thread :=
  let '(w, ws) := st in
  match ws !! exitId with
  | None => st
  | Some th => (join_thread w th, delete exitId ws)
  end.

Definition reap (st : World * ThreadPool true) : World * ThreadPool true :=
  let '(w, p) := st in
  let d : DynamicMembers := m_dynamic p in
  let exitIds := workerExitId_deque d in
  let p1 := set_dynamic (set_exitDeque [] d : dynamic_t true) p in
  let '(w', ws') := foldl reap_one (w, (m_workers p : gmap nat thread)) exitIds in
  (w', set_workers (ws' : workers_t true) p1).

(** Step 2 of a cycle. [None] is the division by a zero worker count. *)
Definition rebalance (st : World * ThreadPool true) : option (World * ThreadPool true) :=
  let '(w, p) := st in
  let d : DynamicMembers := m_dynamic p in
  let taskCount := getTaskNum p in
  let workerCount := getWorkerNum p in
  let idleCount := idleThreads d in
  if (SizeT.mul workerCount 2 <? taskCount) && (workerCount <? maxThreads d) then
    match SizeT.div (SizeT.sub (SizeT.add taskCount workerCount) 1) workerCount with
    | None => None
    | Some estimate =>
        let needThreads := Z.min (SizeT.sub (maxThreads d) workerCount) estimate in
        let needThreads := Z.min needThreads (SizeT.add (workerCount / 2) 1) in
        Some (repeat_size_t needThreads spawn_dynamic (w, p))
    end
  else if (workerCount / 2 <? idleCount) && (Z.max (minThreads d) 1 <? workerCount) then
    let minKeep := Z.max (minThreads d) 1 in
    let reduceThreads :=
      Z.min (SizeT.sub workerCount minKeep) (SizeT.sub idleCount (workerCount / 2)) in
    if 0 <? reduceThreads then
      Some (repeat_size_t reduceThreads (emit (EvNotifyNotEmpty false)) w,
            set_dynamic (set_workerExitNum reduceThreads d : dynamic_t true) p)
    else Some (w, p)
  else Some (w, p).

(** One pass of the manager loop after its timed wait. *)
Definition manager_cycle (st : World * ThreadPool true) : option (World * ThreadPool true) :=
  if m_stop (snd st) then Some st else rebalance (reap st).

(** ** Observations on traces *)

Definition spawned_workers (tr : list Event) : list nat :=
  omap (fun e => match e with EvSpawnWorker t => Some t | _ => None end) tr.

Definition runs (tr : list Event) : list nat :=
  omap (fun e => match e with EvRun t => Some t | _ => None end) tr.

Definition stderr_lines (tr : list Event) : list string :=
  omap (fun e => match e with EvStderr l => Some l | _ => None end) tr.

(** How often the shutdown sequence of [stop] ran: it is the only place that
    calls [notify_all] on the not-empty condition variable. *)
Definition shutdowns (tr : list Event) : nat :=
  length (omap (fun e => match e with
                         | EvNotifyNotEmpty true => Some tt
                         | _ => None
                         end) tr).

(** How often [notify_one] was called on the not-empty condition variable. *)
Definition wakeups (tr : list Event) : nat :=
  length (omap (fun e => match e with
                         | EvNotifyNotEmpty false => Some tt
                         | _ => None
                         end) tr).

(** ** The message buffer ([ol_Buffer.h]) *)

Module ol_Buffer.

(** [m_sep]: 0 none, 1 four-byte header, 2 delimiter. *)
Record Buffer : Type := mkBuffer {
  m_buf : list byte;
  m_sep : Z
}.

(** [m_buf.erase(pos, n)] *)
Definition erase (pos n : nat) (b : Buffer) : Buffer :=
  mkBuffer (take pos (m_buf b) ++ drop (pos + n) (m_buf b)) (m_sep b).

Definition empty (b : Buffer) : bool := bool_decide (m_buf b = []).

Definition byte_of_Z (z : Z) : byte :=
  default "000"%byte (Byte.of_N (Z.to_N (z mod 256))).

Definition Z_of_byte (b : byte) : Z := Z.of_N (Byte.to_N b).

(** The four bytes of a 32-bit length as they lie in memory on the
    little-endian hosts the library is built for. *)
Definition header_of (len : Z) : list byte :=
  [byte_of_Z len; byte_of_Z (len / 2 ^ 8); byte_of_Z (len / 2 ^ 16);
   byte_of_Z (len / 2 ^ 24)].

Definition header_value (h : list byte) : Z :=
  match h with
  | [b0; b1; b2; b3] =>
      Z_of_byte b0 + 2 ^ 8 * Z_of_byte b1 + 2 ^ 16 * Z_of_byte b2
      + 2 ^ 24 * Z_of_byte b3
  | _ => 0
  end.

(** Modelled from the spec: the body of [Buffer::append] is not part of the
    sources at hand; the header documents it as appending the bytes to
    [m_buf]. *)
Definition append (data : list byte) (b : Buffer) : Buffer :=
  mkBuffer (m_buf b ++ data) (m_sep b).

(** Modelled from the spec: the body of [Buffer::appendWithSep] is missing;
    under discipline 1 it "computes and prepends the length header", a
    four-byte length followed by the payload. *)
Definition appendWithSep (data : list byte) (b : Buffer) : Buffer :=
  if decide (m_sep b = 1)
  then mkBuffer (m_buf b ++ header_of (Z.of_nat (length data)) ++ data) (m_sep b)
  else mkBuffer (m_buf b ++ data) (m_sep b).

(** Modelled from the spec: the body of [Buffer::pickMessage] is missing.
    Under discipline 1 it "reads the header, waits for the full payload to
    accumulate, then extracts and erases it", and "returns false when no
    complete message is yet available, leaving partial data in place".  The
    other two disciplines are outside this development and extract nothing
    here. *)
Definition pickMessage (b : Buffer) : Buffer * option (list byte) :=
  if decide (m_sep b = 1) then
    if decide (length (m_buf b) < 4)%nat then (b, None)
    else
      let len := Z.to_nat (header_value (take 4 (m_buf b))) in
      if decide (length (m_buf b) < 4 + len)%nat then (b, None)
      else (erase 0 (4 + len) b, Some (take len (drop 4 (m_buf b))))
  else (b, None).

Definition inspect {A} (a : A) : {b : A | a = b} := exist _ a eq_refl.

Lemma pickMessage_shrinks b b' m :
  pickMessage b = (b', Some m) -> (length (m_buf b') < length (m_buf b))%nat.
Proof.
  unfold pickMessage. intros Hpick.
  repeat case_decide; inversion Hpick; subst; clear Hpick.
  simpl. rewrite length_drop. lia.
Qed.

(** Modelled from the spec: the receive path of [Connection::onMessage]
    (its body is missing) "repeatedly asks the buffer to extract one complete
    framed message until none remain". *)
Equations? drain (b : Buffer) : list (list byte) * Buffer
  by wf (length (m_buf b)) lt :=
  drain b with inspect (pickMessage b) := {
    | exist _ (b', Some m) H => let r := drain b' in (m :: fst r, snd r)
    | exist _ (_, None) _ => ([], b) }.
Proof. eapply pickMessage_shrinks; eauto. Qed.

(** One readiness event: the bytes read are appended, then messages drained. *)
Definition receive (st : list (list byte) * Buffer) (chunk : list byte)
  : list (list byte) * Buffer :=
  let r := drain (append chunk (snd st)) in
  (fst st ++ fst r, snd r).

Definition receive_all (b : Buffer) (chunks : list (list byte))
  : list (list byte) * Buffer :=
  foldl receive ([], b) chunks.

(** The bytes of one message under discipline 1. *)
Definition frame (m : list byte) : list byte :=
  header_of (Z.of_nat (length m)) ++ m.

(** What a sender puts on the wire for a sequence of messages. *)
Definition wire (msgs : list (list byte)) : list byte :=
  m_buf (foldl (fun b m => appendWithSep m b) (mkBuffer [] 1) msgs).

End ol_Buffer.

(** ** The LD_PRELOAD shim *)

Module Shim.

Definition AF_INET : Z := 2.
Definition AF_INET6 : Z := 10.
Definition EINVAL : Z := 22.
Definition ECONNREFUSED : Z := 111.

(** A call that yields a value ([inr]) or is left by an exception ([inl]). *)
#[global] Instance throws_ret : MRet (sum exn) := fun A a => inr a.

#[global] Instance throws_bind : MBind (sum exn) :=
  fun A B k m => match m with inl e => inl e | inr a => k a end.

(** [ol::InetAddr] as the shim uses it.  Only the declaration of the class is
    among the sources, so an object is what its [const] member functions
    yield: [getIp()] and [getPort()] return a value or throw
    [std::runtime_error], as the declaration documents. *)
Record InetAddr : Type := mkInetAddr {
  getIp : exn + string;
  getPort : exn + Z
}.

Record BlacklistEntry : Type := mkEntry {
  addr : InetAddr;
  url : string;
  mask : string;
  is_domain : bool
}.

Record TimeRange : Type := mkTimeRange {
  start_time : Z;
  end_time : Z
}.

(** What a [const struct sockaddr*] that is not null points to: the family
    tag and the bytes that follow it.  The pointer itself is an
    [option sockaddr], [None] for [nullptr]. *)
Record sockaddr : Type := mkSockaddr {
  sa_family : Z;
  sa_data : list byte
}.

(** A [connect] implementation, called with [sockfd], [addr] and [addrlen]:
    the return value and the [errno] it leaves. *)
Definition connect_fn : Type := Z -> option sockaddr -> Z -> Z * option Z.

(** The globals of the shim. *)
Record Globals : Type := mkGlobals {
  g_Blacklist : list BlacklistEntry;
  g_WhitelistProcs : list string;
  g_InterceptTime : TimeRange;
  g_bConfigLoaded : bool;
  orig_connect : option connect_fn
}.

(** What the process sees of the system during one call. *)
Record System : Type := mkSystem {
  proc_exe : option string;             (* readlink("/proc/self/exe") *)
  current_hhmm : Z;                     (* get_current_hhmm() *)
  getaddrinfo : string -> list string;  (* the addresses a name resolves to *)
  dlsym_next_connect : option connect_fn;
  (* the configuration file as load_config parses it, if it can be opened *)
  config_file : option (list BlacklistEntry * list string * option Z * option Z)
}.

Inductive LogLine : Type :=
| LogWhitelisted (proc : string)
| LogBlocked (proc : string) (target : InetAddr) (matched_url : string)
| LogAllowed (proc : string) (target : InetAddr)
| LogStderr (line : string).

(** How a call of the interposed function ends. *)
Inductive Ending : Type :=
| Returned (ret : Z) (errno : option Z)
| Thrown (e : exn)       (* an exception leaves the function *)
| NullDereference.       (* [addr->sa_family] is read with [addr == nullptr] *)

Record Outcome : Type := mkOutcome {
  ending : Ending;
  (* the arguments passed to the original, when it was called *)
  delegated : option (Z * option sockaddr * Z);
  logged : list LogLine
}.

Definition get_current_proc_path (sys : System) : string :=
  match proc_exe sys with
  | Some path => if bool_decide (path = "") then "unknown_proc" else path
  | None => "unknown_proc"
  end.

Definition is_in_intercept_time (sys : System) (g : Globals) : bool :=
  let current := current_hhmm sys in
  let start := start_time (g_InterceptTime g) in
  let end_ := end_time (g_InterceptTime g) in
  if end_ <? start then (start <=? current) || (current <=? end_)
  else (start <=? current) && (current <=? end_).

(** [resolve_url_to_ips]: success and the list it filled. *)
Definition resolve_url_to_ips (sys : System) (target : string) : bool * list string :=
  let ips := getaddrinfo sys target in
  (negb (bool_decide (ips = [])), ips).

(** [isdigit] and [isalpha] of [<cctype>] in the "C" locale, where a byte
    above 127 is neither. *)
Definition isdigit (c : ascii) : bool :=
  (48 <=? nat_of_ascii c)%nat && (nat_of_ascii c <=? 57)%nat.

Definition isalpha (c : ascii) : bool :=
  ((65 <=? nat_of_ascii c)%nat && (nat_of_ascii c <=? 90)%nat)
  || ((97 <=? nat_of_ascii c)%nat && (nat_of_ascii c <=? 122)%nat).

(** The first loop of [is_valid_ip]: [None] is its [return false], otherwise
    the count of dots. *)
Fixpoint count_dots (str : list ascii) (dot_count : Z) : option Z :=
  match str with
  | [] => Some dot_count
  | c :: rest =>
      if negb (isdigit c) && negb (bool_decide (c = "."%char)) then None
      else count_dots rest (if bool_decide (c = "."%char) then dot_count + 1
                            else dot_count)
  end.

(** The second loop: [None] is its [return false], otherwise [has_colon]. *)
Fixpoint find_colon (str : list ascii) (has_colon : bool) : option bool :=
  match str with
  | [] => Some has_colon
  | c :: rest =>
      if negb (isdigit c) && negb (isalpha c) && negb (bool_decide (c = ":"%char))
         && negb (bool_decide (c = "."%char))
      then None
      else find_colon rest (if bool_decide (c = ":"%char) then true else has_colon)
  end.

Definition is_valid_ip (str : string) : bool :=
  match count_dots (String.list_ascii_of_string str) 0 with
  | None => false
  | Some dot_count =>
      if dot_count =? 3 then true
      else default false (find_colon (String.list_ascii_of_string str) false)
  end.

(** [snprintf] with ["%02d"] for a value from 0 to 99. *)
Definition two_digits (n : Z) : string :=
  String (ascii_of_nat (48 + Z.to_nat (n / 10)))
         (String (ascii_of_nat (48 + Z.to_nat (n mod 10))) "").

(** [hhmm_to_str]: [/] and [%] on [int] truncate towards zero. *)
Definition hhmm_to_str (hhmm : Z) : string :=
  let hour := Z.quot hhmm 100 in
  let min := Z.rem hhmm 100 in
  let hour := if hour <? 0 then 0 else if 24 <? hour then 24 else hour in
  let min := if min <? 0 then 0 else if 59 <? min then 59 else min in
  two_digits hour +:+ ":" +:+ two_digits min.

(** [isspace] of [<cctype>] in the "C" locale. *)
Definition isspace (c : ascii) : bool :=
  (nat_of_ascii c =? 32)%nat
  || ((9 <=? nat_of_ascii c)%nat && (nat_of_ascii c <=? 13)%nat).

(** The characters [s.c_str()] shows to a C function: those before the
    first NUL. *)
Fixpoint c_str (s : string) : string :=
  match s with
  | "" => ""
  | String c s' => if bool_decide (c = zero) then "" else String c (c_str s')
  end.

Fixpoint skip_spaces (s : string) : string :=
  match s with
  | "" => ""
  | String c s' => if isspace c then skip_spaces s' else s
  end.

(** The decimal digits at the front of [s]: their value on top of [acc] and
    the rest of the string. *)
Fixpoint leading_digits (s : string) (acc : Z) : Z * string :=
  match s with
  | "" => (acc, "")
  | String c s' =>
      if isdigit c then leading_digits s' (10 * acc + (Z.of_nat (nat_of_ascii c) - 48))
      else (acc, s)
  end.

Definition LONG_MAX : Z := 2 ^ 63 - 1.
Definition LONG_MIN : Z := - 2 ^ 63.

(** [strtol(nptr, &end_ptr, 10)] of the C library: the value and the string
    [end_ptr] is left pointing to; without a digit to convert that is [nptr]
    itself. *)
Definition strtol (nptr : string) : Z * string :=
  let s := skip_spaces nptr in
  let '(negative, s) :=
    match s with
    | String "-" s' => (true, s')
    | String "+" s' => (false, s')
    | _ => (false, s)
    end in
  match s with
  | String c _ =>
      if isdigit c then
        let '(v, rest) := leading_digits s 0 in
        (if negative : bool then Z.max (- v) LONG_MIN else Z.min v LONG_MAX, rest)
      else (0, nptr)
  | "" => (0, nptr)
  end.

Section Trimming.

(** [deleteLRchr(std::string& str, const char c = ' ')] of the OL string
    helpers, which removes the character at both ends; only its declaration
    is among the sources. *)
Variable deleteLRchr : string -> string.

(** [str_to_hhmm]: [None] is [return false], otherwise [hhmm_out]. *)
Definition str_to_hhmm (time_str : string) : option Z :=
  let clean_str := deleteLRchr time_str in
  match String.index 0 ":" clean_str with
  | None => None
  | Some colon_pos =>
      if (colon_pos <? 1)%nat || (2 <? colon_pos)%nat
         || (5 <? String.length clean_str)%nat
      then None
      else
        let hour_str := deleteLRchr (String.substring 0 colon_pos clean_str) in
        let min_str :=
          deleteLRchr (String.substring (colon_pos + 1)
                         (String.length clean_str - (colon_pos + 1)) clean_str) in
        let '(hour, end_ptr) := strtol (c_str hour_str) in
        if negb (bool_decide (end_ptr = "")) || (hour <? 0) || (24 <? hour) then None
        else
          let '(min, end_ptr) := strtol (c_str min_str) in
          if negb (bool_decide (end_ptr = "")) || (min <? 0) || (59 <? min) then None
          else if (hour =? 24) && negb (min =? 0) then None
          else Some (hour * 100 + min)
  end.

End Trimming.

(** [if (s.find("/usr/bin/") == 0) s.replace(0, 4, "/bin");] *)
Definition simplify_bin (s : string) : string :=
  if String.prefix "/usr/bin/" s
  then String.append "/bin" (String.substring 4 (String.length s - 4) s)
  else s.

Definition is_proc_whitelisted (sys : System) (g : Globals) : bool :=
  let proc_path := get_current_proc_path sys in
  if bool_decide (proc_path = "") then false
  else
    let simplified_proc := simplify_bin proc_path in
    existsb (fun white_proc =>
               bool_decide (proc_path = white_proc)
               || bool_decide (simplified_proc = simplify_bin white_proc))
            (g_WhitelistProcs g).

(** [(entry.addr.getPort() == 0) || (entry.addr.getPort() == target_port)] *)
Definition port_matches (entry : BlacklistEntry) (target_port : Z) : exn + bool :=
  port ← getPort (addr entry);
  if port =? 0 then mret true
  else port' ← getPort (addr entry); mret (port' =? target_port).

(** The body of the loop of [is_blocked] for one entry: [true] is its
    [return true], [false] goes on to the next entry. *)
Definition entry_blocks (sys : System) (target_ip : string) (target_port : Z)
    (entry : BlacklistEntry) : exn + bool :=
  port_match ← port_matches entry target_port;
  direct ← (if port_match : bool then
              entry_ip ← getIp (addr entry);
              mret (bool_decide (entry_ip = "*") || bool_decide (entry_ip = target_ip))
            else mret false);
  if direct : bool then mret true
  else if is_domain entry && negb (bool_decide (url entry = "")) then
    port_match_domain ← port_matches entry target_port;
    if port_match_domain : bool then
      let '(ok, resolved_ips) := resolve_url_to_ips sys (url entry) in
      mret (ok && existsb (fun resolved_ip => bool_decide (resolved_ip = target_ip))
                          resolved_ips)
    else mret false
  else mret false.

Fixpoint any_entry_blocks (sys : System) (target_ip : string) (target_port : Z)
    (entries : list BlacklistEntry) : exn + bool :=
  match entries with
  | [] => mret false
  | entry :: rest =>
      hit ← entry_blocks sys target_ip target_port entry;
      if hit : bool then mret true
      else any_entry_blocks sys target_ip target_port rest
  end.

Definition is_blocked (sys : System) (g : Globals) (target_addr : InetAddr)
  : exn + bool :=
  if negb (is_in_intercept_time sys g) then mret false
  else
    target_ip ← getIp target_addr;
    target_port ← getPort target_addr;
    any_entry_blocks sys target_ip target_port (g_Blacklist g).

(** [load_config]: runs once; the parsing itself is taken from [config_file]. *)
Definition load_config (sys : System) (g : Globals) : Globals :=
  if g_bConfigLoaded g then g
  else
    match config_file sys with
    | None =>
        mkGlobals (g_Blacklist g) (g_WhitelistProcs g) (g_InterceptTime g) true
                  (orig_connect g)
    | Some (entries, procs, start, end_) =>
        mkGlobals (g_Blacklist g ++ entries) (g_WhitelistProcs g ++ procs)
                  (mkTimeRange (default (start_time (g_InterceptTime g)) start)
                               (default (end_time (g_InterceptTime g)) end_))
                  true (orig_connect g)
    end.

(** [entry.addr.getPort() == 0 || entry.addr.getPort() == target_addr.getPort()];
    where C++ leaves the order of two calls open, they are taken left to
    right. *)
Definition port_matches_target (entry : BlacklistEntry) (target : InetAddr)
  : exn + bool :=
  port ← getPort (addr entry);
  if port =? 0 then mret true
  else
    port' ← getPort (addr entry);
    target_port ← getPort target;
    mret (port' =? target_port).

(** The inner loop of the search over the addresses a domain entry resolves
    to: whether it set [matched_url]. *)
Fixpoint resolves_to (target : InetAddr) (entry : BlacklistEntry)
    (resolved_ips : list string) : exn + bool :=
  match resolved_ips with
  | [] => mret false
  | ip :: rest =>
      target_ip ← getIp target;
      if bool_decide (ip = target_ip) then
        port_match ← port_matches_target entry target;
        if port_match : bool then mret true else resolves_to target entry rest
      else resolves_to target entry rest
  end.

(** The search for the entry whose URL the log line shows. *)
Fixpoint find_matched_url (sys : System) (target : InetAddr)
    (entries : list BlacklistEntry) : exn + string :=
  match entries with
  | [] => mret ""
  | entry :: rest =>
      if is_domain entry then
        let '(ok, resolved_ips) := resolve_url_to_ips sys (url entry) in
        found ← (if ok then resolves_to target entry resolved_ips else mret false);
        let matched_url := if found : bool then url entry else "" in
        if bool_decide (matched_url = "") then find_matched_url sys target rest
        else mret matched_url
      else
        entry_ip ← getIp (addr entry);
        ip_match ← (if bool_decide (entry_ip = "*") then mret true
                    else
                      entry_ip' ← getIp (addr entry);
                      target_ip ← getIp target;
                      mret (bool_decide (entry_ip' = target_ip)));
        port_match ← port_matches_target entry target;
        if ip_match && port_match then mret (url entry)
        else find_matched_url sys target rest
  end.

Definition call_original (f : connect_fn) (sockfd : Z) (addr : option sockaddr)
    (addrlen : Z) (log : list LogLine) : Outcome :=
  let '(r, e) := f sockfd addr addrlen in
  mkOutcome (Returned r e) (Some (sockfd, addr, addrlen)) log.

Section Interposed.

(** [InetAddr(const sockaddr* addr, socklen_t addrLen)]: its body is not among
    the sources; the declaration documents that it throws
    [std::invalid_argument] when the length is out of range. *)
Variable InetAddr_of_sockaddr : sockaddr -> Z -> exn + InetAddr.

(** The interposed [connect].  No handler surrounds the calls that may throw,
    and [addr] is read without a test for [nullptr]. *)
Definition connect (sys : System) (g : Globals) (sockfd : Z)
    (addr : option sockaddr) (addrlen : Z) : Globals * Outcome :=
  let g1 := load_config sys g in
  let resolved :=
    match orig_connect g1 with
    | Some f => Some f
    | None => dlsym_next_connect sys
    end in
  let g2 := mkGlobals (g_Blacklist g1) (g_WhitelistProcs g1) (g_InterceptTime g1)
                      (g_bConfigLoaded g1) resolved in
  match resolved with
  | None =>
      (g2, mkOutcome (Returned (-1) (Some EINVAL)) None
             [LogStderr "connect lookup failed"])
  | Some original =>
      if is_proc_whitelisted sys g2 then
        (g2, call_original original sockfd addr addrlen
               [LogWhitelisted (get_current_proc_path sys)])
      else
        match addr with
        | None => (g2, mkOutcome NullDereference None [])
        | Some sa =>
            if negb (sa_family sa =? AF_INET) && negb (sa_family sa =? AF_INET6) then
              (g2, call_original original sockfd addr addrlen [])
            else
              match InetAddr_of_sockaddr sa addrlen with
              | inl e => (g2, mkOutcome (Thrown e) None [])
              | inr target_addr =>
                  let proc_path := get_current_proc_path sys in
                  match is_blocked sys g2 target_addr with
                  | inl e => (g2, mkOutcome (Thrown e) None [])
                  | inr true =>
                      match find_matched_url sys target_addr (g_Blacklist g2) with
                      | inl e => (g2, mkOutcome (Thrown e) None [])
                      | inr matched_url =>
                          (g2, mkOutcome (Returned (-1) (Some ECONNREFUSED)) None
                                 [LogBlocked proc_path target_addr matched_url])
                      end
                  | inr false =>
                      (g2, call_original original sockfd addr addrlen
                             [LogAllowed proc_path target_addr])
                  end
              end
        end
  end.

End Interposed.

(** The two ways a call can end that the caller of [connect] expects. *)
Definition delegates (original : connect_fn) (sockfd : Z) (addr : option sockaddr)
    (addrlen : Z) (out : Outcome) : Prop :=
  delegated out = Some (sockfd, addr, addrlen)
  /\ ending out = (let '(r, e) := original sockfd addr addrlen in Returned r e).

Definition refuses (out : Outcome) : Prop :=
  ending out = Returned (-1) (Some ECONNREFUSED) /\ delegated out = None.

End Shim.

(** ** Workers taking turns *)

(** The workers named in [tids] each run one pass of their loop, in that
    order; the count is of those whose thread function returned. *)
Fixpoint run_workers {D} (tids : list nat) (st : World * ThreadPool D)
  : World * ThreadPool D * nat :=
  match tids with
  | [] => (st, O)
  | tid :: rest =>
      let '(st1, pc) := worker_iter tid st in
      let '(st2, k) := run_workers rest st1 in
      (st2, match pc with Finished => S k | _ => k end)
  end.

(** ** Client calls in sequence *)

Inductive Call : Type :=
| CallAddTask (t : Task)
| CallSubmitTask (id : nat).

(** One call by a client thread that nobody interferes with; the result is
    the boolean the call returned, when it returned. *)
Definition perform {D} (fuel : nat) (st : World * ThreadPool D) (c : Call)
  : World * ThreadPool D * option bool :=
  match c with
  | CallAddTask t =>
      let r := addTask fuel t [] st in
      (run_world r, run_pool r, returned (run_completion r))
  | CallSubmitTask id =>
      let '(r, res) := submitTask fuel id [] st in
      (run_world r, run_pool r, fst <$> res)
  end.

Fixpoint perform_all {D} (fuel : nat) (st : World * ThreadPool D) (cs : list Call)
  : World * ThreadPool D * list (option bool) :=
  match cs with
  | [] => (st, [])
  | c :: cs' =>
      let '(st1, b) := perform fuel st c in
      let '(st2, bs) := perform_all fuel st1 cs' in
      (st2, b :: bs)
  end.

(** ** Schedules as seen by a waiting caller *)

(** The state after the first [k] interferences of a schedule. *)
Definition state_after {D} (k : nat) (env : Schedule) (p : ThreadPool D) : ThreadPool D :=
  foldl (fun s e => interfere (snd e) s) p (take k env).

(** [k] is the first point of the schedule at which a slot is free or the pool
    has stopped. *)
Definition first_wakeup {D} (k : nat) (env : Schedule) (p : ThreadPool D) : Prop :=
  (k <= length env)%nat
  /\ not_full_or_stopped (state_after k env p) = true
  /\ forall j, (j < k)%nat -> not_full_or_stopped (state_after j env p) = false.

(** The states a caller can see before [budget] milliseconds have passed. *)
Fixpoint observed_within {D} (budget : Z) (env : Schedule) (p : ThreadPool D)
  : list (ThreadPool D) :=
  p :: match env with
       | [] => []
       | (dt, i) :: env' =>
           if dt <=? budget then observed_within (budget - dt) env' (interfere i p)
           else []
       end.






(** ** What a task leaves on [stderr] *)

(** The line the worker is to print for a task: none if the task returns,
    the message of a standard exception, or the note for a foreign one. *)
Definition task_log (t : Task) : list string :=
  if task_callable t then
    match task_body t with
    | None => []
    | Some ForeignException => ["Unknown task error"]
    | Some (StdException what) | Some (InvalidArgument what) | Some (RuntimeError what) =>
        [String.append "Task error: " what]
    end
  else [].

Definition task_runs (t : Task) : list nat :=
  if task_callable t then [task_id t] else [].

(** [m_dynamic.workerExitNum > 0], false in fixed mode. *)
Definition exit_requested {D} (p : ThreadPool D) : bool :=
  dynamic_get (fun d => 0 <? workerExitNum d) false p.

(** ** Notions used in the proofs *)

(** Every id in the container was handed out before [n]. *)
Definition keys_below (n : nat) (m : gmap nat thread) : Prop :=
  forall k, is_Some (m !! k) -> (k < n)%nat.

(** The three ways [rebalance] can complete. *)
Inductive Rebalanced (w : World) (p : ThreadPool true) (w' : World)
    (p' : ThreadPool true) : Prop :=
| ScaledUp (needThreads : Z) :
    SizeT.mul (getWorkerNum p) 2 < getTaskNum p ->
    getWorkerNum p < maxThreads (m_dynamic p) ->
    0 <= needThreads <= maxThreads (m_dynamic p) - getWorkerNum p ->
    needThreads <= getWorkerNum p / 2 + 1 ->
    (w', p') = repeat_size_t needThreads spawn_dynamic (w, p) ->
    Rebalanced w p w' p'
| ScaledDown (reduceThreads : Z) :
    getWorkerNum p / 2 < idleThreads (m_dynamic p) ->
    Z.max (minThreads (m_dynamic p)) 1 < getWorkerNum p ->
    0 < reduceThreads <= getWorkerNum p - Z.max (minThreads (m_dynamic p)) 1 ->
    reduceThreads < SizeT.modulus ->
    w' = repeat_size_t reduceThreads (emit (EvNotifyNotEmpty false)) w ->
    p' = set_dynamic (set_workerExitNum reduceThreads (m_dynamic p) : dynamic_t true) p ->
    Rebalanced w p w' p'
| Untouched :
    w' = w -> p' = p -> Rebalanced w p w' p'.

(** ** States and inputs used as examples *)

Import ol_Buffer.
Import Shim.

Definition one_worker_three_tasks : ThreadPool true :=
  @mkPool true ({[ 0%nat := Joinable 0 ]} : gmap nat thread)
         [mkTask 1 true None; mkTask 2 true None; mkTask 3 true None]
         false 1 0 kReject 500
         (mkDynamic 1 8 0 0 1 (Joinable 1) [] : dynamic_t true).

Definition four_workers_nine_tasks : ThreadPool true :=
  @mkPool true ({[ 0%nat := Joinable 0; 1%nat := Joinable 1;
                   2%nat := Joinable 2; 3%nat := Joinable 3 ]} : gmap nat thread)
         (map (fun i => mkTask i true None) (seq 1 9))
         false 4 0 kReject 500
         (mkDynamic 1 16 0 0 1 (Joinable 4) [] : dynamic_t true).

Definition four_idle_workers : ThreadPool true :=
  @mkPool true ({[ 0%nat := Joinable 0; 1%nat := Joinable 1;
                   2%nat := Joinable 2; 3%nat := Joinable 3 ]} : gmap nat thread)
         [] false 4 0 kReject 500
         (mkDynamic 0 8 4 0 1 (Joinable 4) [] : dynamic_t true).

Definition full_blocking_pool : ThreadPool false :=
  @mkPool false ([Joinable 0] : list thread) [mkTask 1 true None]
          false 1 1 kBlock 500 type_empty.

Definition three_unruly_tasks : ThreadPool false :=
  @mkPool false ([Joinable 0] : list thread)
          [mkTask 1 true (Some (RuntimeError "boom"));
           mkTask 2 true (Some ForeignException);
           mkTask 3 true None]
          false 1 0 kReject 500 type_empty.

Definition two_messages : list (list byte) := [[x68; x69]; [x78]].

Definition three_chunks : list (list byte) :=
  [[x02; x00; x00]; [x00; x68; x69; x01]; [x00; x00; x00; x78]].

Definition whitelisted_curl : System :=
  mkSystem (Some "/usr/bin/curl") 1200 (fun _ => []) None
           (Some ([], ["/usr/bin/curl"], None, None)).

Definition fresh_globals : Globals :=
  mkGlobals [] [] (mkTimeRange 0 2400) false None.

(** [127.0.0.1:80] as a [sockaddr_in]: port and address in network order. *)
Definition loopback_http : sockaddr :=
  mkSockaddr AF_INET [x00; x50; x7f; x00; x00; x01;
                      x00; x00; x00; x00; x00; x00; x00; x00].

(** A process that is on no whitelist, with a [connect] to delegate to. *)
Definition libc_connect : connect_fn := fun _ _ _ => (0, None).

Definition plain_wget : System :=
  mkSystem (Some "/usr/bin/wget") 1200 (fun _ => []) (Some libc_connect) None.

(** One behaviour the documentation of [InetAddr(addr, addrLen)] allows: a
    length beyond [sizeof(sockaddr_in6)] is refused. *)
Definition bounded_InetAddr (wrapped : InetAddr) : sockaddr -> Z -> exn + InetAddr :=
  fun _ addrLen =>
    if 28 <? addrLen then inl (InvalidArgument "address length out of range")
    else inr wrapped.

Definition loopback_target : InetAddr := mkInetAddr (inr "127.0.0.1") (inr 80).

(** ** Policy setters and the destructor *)

Definition setRejectPolicy {D} (p : ThreadPool D) : ThreadPool D :=
  set_policy kReject (m_timeoutMS p) p.

Definition setBlockPolicy {D} (p : ThreadPool D) : ThreadPool D :=
  set_policy kBlock (m_timeoutMS p) p.

(** [setTimeoutPolicy(std::chrono::milliseconds timeoutMS)]: throws before
    taking the lock when the count is not positive. *)
Definition setTimeoutPolicy {D} (timeoutMS : Z) (p : ThreadPool D) : exn + ThreadPool D :=
  if timeoutMS <=? 0 then inl (InvalidArgument "Timeout must be greater than 0")
  else inr (set_policy kTimeout timeoutMS p).

(** [~ThreadPool()]: [if (m_stop) return; stop();] and a bounded sleep. *)
Definition destroy {D} (st : World * ThreadPool D) : World * ThreadPool D :=
  if m_stop (snd st) then st else stop st.

(** A client's calls to the three setters; a call that throws leaves the
    pool as it was. *)
Inductive PolicyCall : Type :=
| CallSetReject
| CallSetBlock
| CallSetTimeout (timeoutMS : Z).

Definition set_policy_call {D} (p : ThreadPool D) (c : PolicyCall) : ThreadPool D :=
  match c with
  | CallSetReject => setRejectPolicy p
  | CallSetBlock => setBlockPolicy p
  | CallSetTimeout ms =>
      match setTimeoutPolicy ms p with
      | inl _ => p
      | inr p' => p'
      end
  end.

(** The ids of the threads joined, in order. *)
Definition joined (tr : list Event) : list nat :=
  omap (fun e => match e with EvJoin t => Some t | _ => None end) tr.

(** The id behind a thread object that [joinable()] holds of. *)
Definition joinable_id (th : thread) : option nat :=
  match th with
  | Joinable tid => Some tid
  | NotAThread => None
  end.

(** A character the first loop of [is_valid_ip] lets pass. *)
Definition digit_or_dot (c : ascii) : bool :=
  isdigit c || bool_decide (c = "."%char).

(** A string with no space at either end, which [deleteLRchr] has nothing
    to remove from. *)
Definition trimmed (s : string) : bool :=
  match s with
  | "" => true
  | String c s' =>
      negb (bool_decide (c = " "%char))
      && negb (bool_decide (last (String.list_ascii_of_string s) = Some " "%char))
  end.

(** Removing the spaces at both ends, for use in examples. *)
Fixpoint drop_spaces (l : list ascii) : list ascii :=
  match l with
  | [] => []
  | c :: l' => if bool_decide (c = " "%char) then drop_spaces l' else l
  end.

Definition strip (s : string) : string :=
  String.string_of_list_ascii
    (reverse (drop_spaces (reverse (drop_spaces (String.list_ascii_of_string s))))).

(** The task a client call hands to the queue. *)
Definition call_task (c : Call) : Task :=
  match c with
  | CallAddTask t => t
  | CallSubmitTask id => packaged id
  end.

(** * Properties *)

(** ** Facts about [size_t] arithmetic *)

Lemma SizeT_modulus_pos : 0 < SizeT.modulus.
Proof. reflexivity. Qed.

Lemma SizeT_wrap_range z : SizeT.in_range (SizeT.wrap z).
Proof.
  unfold SizeT.in_range, SizeT.wrap.
  apply Z.mod_pos_bound, SizeT_modulus_pos.
Qed.

Lemma SizeT_wrap_le z : 0 <= z -> SizeT.wrap z <= z.
Proof.
  intros Hz. unfold SizeT.wrap.
  apply Z.mod_le; [exact Hz | exact SizeT_modulus_pos].
Qed.

Lemma SizeT_wrap_small z : SizeT.in_range z -> SizeT.wrap z = z.
Proof. unfold SizeT.in_range, SizeT.wrap. intros Hz. now apply Z.mod_small. Qed.

Lemma SizeT_wrap_nonneg z : 0 <= SizeT.wrap z.
Proof. apply SizeT_wrap_range. Qed.

(** ** Spawning workers *)

Lemma keys_below_empty n : keys_below n ∅.
Proof. intros k [x Hx]. rewrite lookup_empty in Hx. discriminate. Qed.

Lemma repeat_size_t_S {A} (n : nat) (f : A -> A) (a : A) :
  repeat_size_t (Z.of_nat (S n)) f a = f (repeat_size_t (Z.of_nat n) f a).
Proof. unfold repeat_size_t. rewrite !Nat2Z.id. reflexivity. Qed.

Lemma repeat_size_t_nat {A} (n : Z) (f : A -> A) (a : A) :
  repeat_size_t n f a = repeat_size_t (Z.of_nat (Z.to_nat n)) f a.
Proof. unfold repeat_size_t. now rewrite Nat2Z.id. Qed.

(** What [n] rounds of the dynamic spawn loop do when the ids still to be
    handed out are not yet keys of the container. *)
Lemma spawn_dynamic_iter (n : nat) (w : World) (p : ThreadPool true) :
  keys_below (next_tid w) (m_workers p) ->
  let st := repeat_size_t (Z.of_nat n) spawn_dynamic (w, p) in
  next_tid (fst st) = (next_tid w + n)%nat
  /\ trace (fst st) = trace w ++ (EvSpawnWorker <$> seq (next_tid w) n)
  /\ keys_below (next_tid (fst st)) (m_workers (snd st))
  /\ getWorkerNum (snd st) = getWorkerNum p + Z.of_nat n
  /\ m_taskQueue (snd st) = m_taskQueue p
  /\ m_stop (snd st) = m_stop p
  /\ m_dynamic (snd st) = m_dynamic p
  /\ m_maxQueueSize (snd st) = m_maxQueueSize p
  /\ m_queueFullPolicy (snd st) = m_queueFullPolicy p.
Proof.
  intros Hk. induction n as [|n IH].
  - cbn. rewrite Nat.add_0_r, app_nil_r, Z.add_0_r. tauto.
  - rewrite repeat_size_t_S.
    destruct (repeat_size_t (Z.of_nat n) spawn_dynamic (w, p)) as [w1 p1].
    cbn [fst snd] in IH.
    destruct IH as (Ht & Htr & Hkb & Hsz & Hq & Hs & Hd & Hm & Hpol).
    unfold spawn_dynamic. cbn [fst snd].
    assert (Hfresh : (m_workers p1 : gmap nat thread) !! next_tid w1 = None).
    { destruct ((m_workers p1 : gmap nat thread) !! next_tid w1) eqn:E; [|done].
      specialize (Hkb (next_tid w1) (ex_intro _ _ E)). lia. }
    rewrite Hfresh, seq_S, fmap_app. cbn.
    repeat split.
    + lia.
    + rewrite Htr, <- app_assoc, Ht. reflexivity.
    + intros k [x Hx].
      destruct (decide (k = next_tid w1)) as [->|Hne]; [lia|].
      rewrite lookup_insert_ne in Hx by congruence.
      specialize (Hkb k (ex_intro _ _ Hx)). lia.
    + unfold getWorkerNum in *. cbn in *.
      rewrite map_size_insert_None by exact Hfresh. lia.
    + exact Hq.
    + exact Hs.
    + exact Hd.
    + exact Hm.
    + exact Hpol.
Qed.

(** ** Constructors *)

Lemma addTask_stopped {D} fuel task env (w : World) (p : ThreadPool D) :
  m_stop p = true ->
  addTask fuel task env (w, p) = mkRun (Failed StoppedOnEntry) w p env 0.
Proof. intros Hs. unfold addTask. now rewrite Hs. Qed.

Lemma perform_stopped {D} fuel (w : World) (p : ThreadPool D) (c : Call) :
  m_stop p = true -> perform fuel (w, p) c = (w, p, Some false).
Proof.
  intros Hs. destruct c as [t|id]; unfold perform, submitTask.
  - now rewrite addTask_stopped.
  - rewrite addTask_stopped by exact Hs. reflexivity.
Qed.

Lemma perform_all_stopped {D} fuel (w : World) (p : ThreadPool D) (cs : list Call) :
  m_stop p = true ->
  perform_all fuel (w, p) cs = (w, p, replicate (length cs) (Some false)).
Proof.
  intros Hs. induction cs as [|c cs IH]; [reflexivity|].
  cbn [perform_all]. rewrite perform_stopped by exact Hs.
  now rewrite IH.
Qed.

(** C9. A fixed-mode pool constructed with [threadNum = 0] is born stopped:
    the constructor starts no thread and leaves [m_workers] empty,
    [isRunning] is false, and every call of any later sequence of [addTask]
    and [submitTask] calls returns false, leaving the queue empty and the
    pool as it was. *)
Theorem fixed_zero_threads_is_stopped (w : World) (maxQueueSize : Z) (fuel : nat)
    (cs : list Call) :
  let '(w0, p0) := ThreadPool_fixed w 0 maxQueueSize in
  w0 = w
  /\ m_workers p0 = ([] : list thread)
  /\ getWorkerNum p0 = 0
  /\ isRunning p0 = false
  /\ (forall w1 : World,
        perform_all fuel (w1, p0) cs = (w1, p0, replicate (length cs) (Some false)))
  /\ (forall (w1 : World) (task : Task) (env : Schedule),
        addTask fuel task env (w1, p0) = mkRun (Failed StoppedOnEntry) w1 p0 env 0)
  /\ (forall (w1 : World) (id : nat) (env : Schedule),
        snd (submitTask fuel id env (w1, p0))
        = Some (false, Broken (RuntimeError "ThreadPool has been stopped")))
  /\ m_taskQueue p0 = [].
Proof.
  unfold ThreadPool_fixed. cbn.
  repeat split.
  intros w1. now apply perform_all_stopped.
Qed.

(** C10. The dynamic-mode constructor: with [minThreadNum > maxThreadNum] it
    throws [std::invalid_argument] and starts no thread; with both zero it
    returns a stopped pool without throwing (and without threads); in every
    other case it starts [max(minThreadNum, 1)] workers and then one manager
    thread, all with fresh ids, and the pool is running. *)
Theorem dynamic_constructor_cases (u : Indeterminate) (w : World)
    (minThreadNum maxThreadNum maxQueueSize interval : Z) :
  0 <= minThreadNum ->
  let r := ThreadPool_dynamic u w minThreadNum maxThreadNum maxQueueSize interval in
  (maxThreadNum < minThreadNum ->
     r = (w, inl (InvalidArgument "Invalid thread number range")))
  /\ (minThreadNum = 0 /\ maxThreadNum = 0 ->
      exists p, r = (w, inr p) /\ m_stop p = true /\ getWorkerNum p = 0
                /\ managerThread (m_dynamic p) = NotAThread)
  /\ (minThreadNum <= maxThreadNum -> 0 < maxThreadNum ->
      exists w' p,
        r = (w', inr p)
        /\ m_stop p = false
        /\ getWorkerNum p = Z.max minThreadNum 1
        /\ trace w' = trace w
             ++ (EvSpawnWorker <$> seq (next_tid w) (Z.to_nat (Z.max minThreadNum 1)))
             ++ [EvSpawnManager (next_tid w + Z.to_nat (Z.max minThreadNum 1))%nat]
        /\ managerThread (m_dynamic p)
           = Joinable (next_tid w + Z.to_nat (Z.max minThreadNum 1))%nat
        /\ minThreads (m_dynamic p) = minThreadNum
        /\ maxThreads (m_dynamic p) = maxThreadNum).
Proof.
  intros Hmin r. subst r. unfold ThreadPool_dynamic.
  split; [|split].
  - intros Hlt. now rewrite decide_True by lia.
  - intros [-> ->]. rewrite decide_False by lia.
    rewrite decide_True by (split; reflexivity).
    eexists. repeat split.
  - intros Hle Hpos. rewrite decide_False by lia.
    rewrite decide_False by lia.
    set (need := if decide (minThreadNum = 0) then 1 else minThreadNum).
    assert (Hneed : need = Z.max minThreadNum 1) by (subst need; case_decide; lia).
    rewrite <- Hneed. rewrite (repeat_size_t_nat need).
    match goal with
    | |- context [repeat_size_t _ spawn_dynamic (w, ?p0)] =>
        pose proof (spawn_dynamic_iter (Z.to_nat need) w p0 (keys_below_empty _)) as Hit
    end.
    cbn zeta in Hit.
    destruct (repeat_size_t _ spawn_dynamic _) as [w1 p1].
    cbn [fst snd] in Hit.
    destruct Hit as (Ht & Htr & _ & Hsz & _ & Hs & Hd & _ & _).
    unfold spawn_manager. eexists _, _. split; [reflexivity|].
    cbn. rewrite Hs, Hd, Htr, Ht. cbn.
    unfold getWorkerNum in Hsz. cbn in Hsz.
    repeat split.
    + rewrite Hsz. rewrite map_size_empty. lia.
    + now rewrite <- app_assoc.
Qed.

(** The third case of C10 at bounds 2 and 4: two workers, then the manager. *)
Lemma dynamic_constructor_cases_witness :
  0 <= 2
  /\ exists w' p,
       ThreadPool_dynamic (mkIndeterminate 7 7 7 7 7) (mkWorld 10 []) 2 4 0 1
       = (w', inr p)
       /\ getWorkerNum p = 2
       /\ trace w' = [EvSpawnWorker 10%nat; EvSpawnWorker 11%nat; EvSpawnManager 12%nat].
Proof.
  split; [lia|].
  destruct (dynamic_constructor_cases (mkIndeterminate 7 7 7 7 7) (mkWorld 10 [])
              2 4 0 1 ltac:(lia)) as (_ & _ & H).
  destruct (H ltac:(lia) ltac:(lia)) as (w' & p & Hr & _ & Hn & Htr & _).
  exists w', p. repeat split; [exact Hr | exact Hn | exact Htr].
Defined.

(** ** Reading traces *)

Lemma spawned_workers_app tr1 tr2 :
  spawned_workers (tr1 ++ tr2) = spawned_workers tr1 ++ spawned_workers tr2.
Proof. unfold spawned_workers. apply omap_app. Qed.

Lemma spawned_workers_spawns (ids : list nat) :
  spawned_workers (EvSpawnWorker <$> ids) = ids.
Proof.
  induction ids as [|i ids IH]; [reflexivity|].
  cbn. unfold spawned_workers in IH. now rewrite IH.
Qed.

Lemma wakeups_app tr1 tr2 : wakeups (tr1 ++ tr2) = (wakeups tr1 + wakeups tr2)%nat.
Proof. unfold wakeups. now rewrite omap_app, length_app. Qed.

Lemma wakeups_spawns (ids : list nat) : wakeups (EvSpawnWorker <$> ids) = O.
Proof. induction ids as [|i ids IH]; [reflexivity|exact IH]. Qed.

Lemma spawned_workers_notifies (n : nat) b :
  spawned_workers (replicate n (EvNotifyNotEmpty b)) = [].
Proof. induction n as [|n IH]; [reflexivity|exact IH]. Qed.

Lemma wakeups_notifies (n : nat) :
  wakeups (replicate n (EvNotifyNotEmpty false)) = n.
Proof.
  induction n as [|n IH]; [reflexivity|].
  cbn. unfold wakeups in IH. now rewrite IH.
Qed.

Lemma emit_iter (n : nat) (e : Event) (w : World) :
  let w' := repeat_size_t (Z.of_nat n) (emit e) w in
  next_tid w' = next_tid w /\ trace w' = trace w ++ replicate n e.
Proof.
  induction n as [|n IH].
  - cbn. now rewrite app_nil_r.
  - rewrite repeat_size_t_S. cbn zeta in *. destruct IH as [Ht Htr].
    unfold emit at 1 3. cbn. split; [exact Ht|].
    rewrite Htr, <- app_assoc. f_equal.
    change (replicate (S n) e) with ([e] ++ replicate n e).
    clear. induction n as [|n IH]; [reflexivity|].
    cbn. f_equal. exact IH.
Qed.

(** The spawn loop whatever the container holds: every round starts one
    thread, and the container grows by at most one entry per round. *)
Lemma spawn_dynamic_iter_any (n : nat) (w : World) (p : ThreadPool true) :
  let st := repeat_size_t (Z.of_nat n) spawn_dynamic (w, p) in
  trace (fst st) = trace w ++ (EvSpawnWorker <$> seq (next_tid w) n)
  /\ next_tid (fst st) = (next_tid w + n)%nat
  /\ getWorkerNum p <= getWorkerNum (snd st) <= getWorkerNum p + Z.of_nat n
  /\ m_dynamic (snd st) = m_dynamic p
  /\ m_stop (snd st) = m_stop p
  /\ m_taskQueue (snd st) = m_taskQueue p.
Proof.
  induction n as [|n IH].
  - change (repeat_size_t (Z.of_nat 0) spawn_dynamic (w, p)) with (w, p).
    cbn. rewrite app_nil_r, Nat.add_0_r. repeat split; lia.
  - rewrite repeat_size_t_S.
    destruct (repeat_size_t (Z.of_nat n) spawn_dynamic (w, p)) as [w1 p1].
    cbn [fst snd] in IH. destruct IH as (Htr & Ht & Hsz & Hd & Hs & Hq).
    unfold spawn_dynamic. rewrite seq_S, fmap_app. cbn [fst snd].
    unfold getWorkerNum in *. cbn in *.
    rewrite Htr, Ht, <- app_assoc.
    repeat split; try assumption; try lia.
    + destruct ((m_workers p1 : gmap nat thread) !! (next_tid w + n)%nat) eqn:E;
        [lia|]. rewrite map_size_insert_None by exact E. lia.
    + destruct ((m_workers p1 : gmap nat thread) !! (next_tid w + n)%nat) eqn:E;
        [lia|]. rewrite map_size_insert_None by exact E. lia.
Qed.

(** ** The manager's clean-up step *)

Lemma join_thread_observed (w : World) (th : thread) :
  spawned_workers (trace (join_thread w th)) = spawned_workers (trace w)
  /\ wakeups (trace (join_thread w th)) = wakeups (trace w).
Proof.
  destruct th as [|tid]; [split; reflexivity|].
  cbn [join_thread emit trace]. rewrite spawned_workers_app, wakeups_app.
  change (spawned_workers [EvJoin tid]) with (@nil nat).
  change (wakeups [EvJoin tid]) with O.
  rewrite app_nil_r, Nat.add_0_r. split; reflexivity.
Qed.

Lemma reap_fold_observed (ids : list nat) (w : World) (ws : gmap nat thread) :
  let st := foldl reap_one (w, ws) ids in
  spawned_workers (trace (fst st)) = spawned_workers (trace w)
  /\ wakeups (trace (fst st)) = wakeups (trace w).
Proof.
  revert w ws. induction ids as [|i ids IH]; intros w ws; [split; reflexivity|].
  cbn [foldl]. unfold reap_one at 2 4.
  destruct (ws !! i) as [th|].
  - destruct (IH (join_thread w th) (delete i ws)) as [H1 H2].
    destruct (join_thread_observed w th) as [H3 H4].
    cbn zeta. rewrite H1, H2, H3, H4. split; reflexivity.
  - apply IH.
Qed.

Lemma reap_observed (w : World) (p : ThreadPool true) :
  let st := reap (w, p) in
  spawned_workers (trace (fst st)) = spawned_workers (trace w)
  /\ wakeups (trace (fst st)) = wakeups (trace w)
  /\ m_stop (snd st) = m_stop p
  /\ m_taskQueue (snd st) = m_taskQueue p
  /\ minThreads (m_dynamic (snd st)) = minThreads (m_dynamic p)
  /\ maxThreads (m_dynamic (snd st)) = maxThreads (m_dynamic p)
  /\ idleThreads (m_dynamic (snd st)) = idleThreads (m_dynamic p).
Proof.
  unfold reap.
  pose proof (reap_fold_observed (workerExitId_deque (m_dynamic p)) w (m_workers p))
    as Hfold.
  cbn zeta in Hfold.
  destruct (foldl reap_one _ _) as [w1 ws1]. cbn [fst snd] in *.
  destruct Hfold as [H1 H2]. repeat split; assumption.
Qed.

(** ** The manager's scaling step *)

Lemma getWorkerNum_nonneg {D} (p : ThreadPool D) : 0 <= getWorkerNum p.
Proof. unfold getWorkerNum. destruct D; cbn; lia. Qed.

Lemma rebalance_inv (w w' : World) (p p' : ThreadPool true) :
  rebalance (w, p) = Some (w', p') -> Rebalanced w p w' p'.
Proof.
  unfold rebalance. cbn zeta.
  pose proof (getWorkerNum_nonneg p) as HW.
  intros Hreb.
  assert (Hshape : forall n r,
            (0 <= n <= maxThreads (m_dynamic p) - getWorkerNum p ->
             n <= getWorkerNum p / 2 + 1 ->
             SizeT.mul (getWorkerNum p) 2 < getTaskNum p ->
             getWorkerNum p < maxThreads (m_dynamic p) ->
             (w', p') = repeat_size_t n spawn_dynamic (w, p) ->
             Rebalanced w p w' p')
            /\ (getWorkerNum p / 2 < idleThreads (m_dynamic p) ->
                Z.max (minThreads (m_dynamic p)) 1 < getWorkerNum p ->
                0 < r <= getWorkerNum p - Z.max (minThreads (m_dynamic p)) 1 ->
                r < SizeT.modulus ->
                w' = repeat_size_t r (emit (EvNotifyNotEmpty false)) w ->
                p' = set_dynamic
                       (set_workerExitNum r (m_dynamic p) : dynamic_t true) p ->
                Rebalanced w p w' p')).
  { intros n r. split; intros; [eapply ScaledUp | eapply ScaledDown]; eassumption. }
  revert Hreb Hshape.
  generalize (getTaskNum p) as T. generalize (m_dynamic p : DynamicMembers) as d.
  revert HW. generalize (getWorkerNum p) as W.
  intros W HW d T. intros Hreb Hshape. revert Hreb.
  destruct (_ && _) eqn:Hup.
  - apply andb_true_iff in Hup as [Hlt1 Hlt2].
    apply Z.ltb_lt in Hlt1, Hlt2.
    unfold SizeT.div. case_decide as HW0; [discriminate|].
    intros Heq. injection Heq as Heq.
    eapply (proj1 (Hshape _ 0)); [ | | exact Hlt1 | exact Hlt2 | symmetry; exact Heq].
    + assert (0 <= SizeT.sub (SizeT.add T W) 1 / W).
      { apply Z.div_pos; [apply SizeT_wrap_nonneg | lia]. }
      pose proof (SizeT_wrap_nonneg (maxThreads d - W)).
      pose proof (SizeT_wrap_nonneg (W / 2 + 1)).
      pose proof (SizeT_wrap_le (maxThreads d - W) ltac:(lia)).
      unfold SizeT.sub, SizeT.add in *. lia.
    + assert (0 <= W / 2) by (apply Z.div_pos; lia).
      pose proof (SizeT_wrap_le (W / 2 + 1) ltac:(lia)).
      unfold SizeT.sub, SizeT.add in *. lia.
  - clear Hup. destruct ((W / 2 <? idleThreads d) && _) eqn:Hdown.
    + apply andb_true_iff in Hdown as [Hlt1 Hlt2].
      apply Z.ltb_lt in Hlt1, Hlt2.
      destruct (0 <? _) eqn:Hpos.
      * apply Z.ltb_lt in Hpos. intros Heq. injection Heq as Hw Hp.
        eapply (proj2 (Hshape 0 _)); [exact Hlt1 | exact Hlt2 | | | symmetry; exact Hw
                                     | symmetry; exact Hp].
        -- split; [exact Hpos|].
           pose proof (SizeT_wrap_le (W - Z.max (minThreads d) 1) ltac:(lia)).
           unfold SizeT.sub in *. lia.
        -- pose proof (SizeT_wrap_range (W - Z.max (minThreads d) 1)) as Hr.
           unfold SizeT.in_range in Hr. unfold SizeT.sub in *. lia.
      * intros Heq. injection Heq as Hw Hp. now apply Untouched.
    + intros Heq. injection Heq as Hw Hp. now apply Untouched.
Qed.

Lemma manager_cycle_inv (w w' : World) (p p' : ThreadPool true) :
  manager_cycle (w, p) = Some (w', p') ->
  (m_stop p = true /\ w' = w /\ p' = p)
  \/ (m_stop p = false
      /\ Rebalanced (fst (reap (w, p))) (snd (reap (w, p))) w' p').
Proof.
  unfold manager_cycle. cbn [snd].
  destruct (m_stop p) eqn:Hs.
  - intros Heq. injection Heq as -> ->. left. tauto.
  - intros Heq. right. split; [reflexivity|].
    apply rebalance_inv. now destruct (reap (w, p)).
Qed.

(** A cycle completes unless it reaches the division with no worker left. *)
Lemma manager_cycle_defined (w : World) (p : ThreadPool true) :
  getWorkerNum (snd (reap (w, p))) <> 0 ->
  exists w' p', manager_cycle (w, p) = Some (w', p').
Proof.
  intros HW. unfold manager_cycle. cbn [snd].
  destruct (m_stop p); [now exists w, p|].
  destruct (reap (w, p)) as [w1 p1]. cbn [snd] in HW.
  unfold rebalance, SizeT.div.
  rewrite decide_False by exact HW.
  repeat match goal with
         | |- context [if ?c then _ else _] => destruct c
         end;
    match goal with
    | |- exists w' p', Some ?st = Some (w', p') =>
        exists (fst st), (snd st); now destruct st
    end.
Qed.

(** X2. In one manager cycle, with [W] the worker count after the clean-up
    step: threads are created only if the pending task count exceeds twice
    [W] (as [size_t] computes it, which is [2 * W] for every [W] a container
    can hold) and [W] is below [maxThreads]; at most [W / 2 + 1] threads are
    created, the bound the code computes; and the worker count that results
    does not exceed [maxThreads]. *)
Theorem manager_scale_up_bounds (w w' : World) (p p' : ThreadPool true) :
  manager_cycle (w, p) = Some (w', p') ->
  let W := getWorkerNum (snd (reap (w, p))) in
  let created := Z.of_nat (length (spawned_workers (trace w')))
                 - Z.of_nat (length (spawned_workers (trace w))) in
  0 <= created
  /\ (0 < created ->
        SizeT.mul W 2 < getTaskNum p
        /\ (W <= SizeT.ptrdiff_max -> 2 * W < getTaskNum p)
        /\ W < maxThreads (m_dynamic p)
        /\ getWorkerNum p' <= W + created
        /\ getWorkerNum p' <= maxThreads (m_dynamic p))
  /\ created <= W / 2 + 1
  /\ (m_stop p = false -> getWorkerNum p' <= Z.max W (maxThreads (m_dynamic p))).
Proof.
  intros Hcycle.
  pose proof (reap_observed w p) as Hreap. cbn zeta in Hreap.
  pose proof (getWorkerNum_nonneg (snd (reap (w, p)))) as HW.
  apply manager_cycle_inv in Hcycle.
  destruct (reap (w, p)) as [w1 p1]. cbn [fst snd] in *.
  destruct Hreap as (Hsp & _ & _ & Hq & _ & Hmax & _).
  assert (Hhalf : 0 <= getWorkerNum p1 / 2) by (apply Z.div_pos; lia).
  cbn zeta. rewrite <- Hsp.
  destruct Hcycle as [(Hstopped & -> & ->)|[_ Hreb]].
  { rewrite Hsp. repeat split; try lia. intros Hrun. congruence. }
  destruct Hreb as [need Hlt Hmaxlt Hneed Hcap Hst | r _ _ Hr _ Hw Hp | Hw Hp].
  - rewrite (repeat_size_t_nat need) in Hst.
    pose proof (spawn_dynamic_iter_any (Z.to_nat need) w1 p1) as Hit.
    cbn zeta in Hit. rewrite <- Hst in Hit. cbn [fst snd] in Hit.
    destruct Hit as (Htr & _ & Hsz & _ & _ & _).
    rewrite Htr, spawned_workers_app, spawned_workers_spawns, length_app, length_seq.
    assert (Hdouble : getWorkerNum p1 <= SizeT.ptrdiff_max ->
                      SizeT.mul (getWorkerNum p1) 2 = 2 * getWorkerNum p1).
    { intros Hsize. unfold SizeT.mul. rewrite SizeT_wrap_small; [lia|].
      unfold SizeT.in_range, SizeT.modulus, SizeT.bits, SizeT.ptrdiff_max in *. lia. }
    unfold getTaskNum in *. rewrite <- Hq, <- Hmax.
    split; [lia|]. split; [|lia].
    intros _. repeat split; lia.
  - subst w'. rewrite (repeat_size_t_nat r).
    destruct (emit_iter (Z.to_nat r) (EvNotifyNotEmpty false) w1) as [_ Htr].
    rewrite Htr, spawned_workers_app, spawned_workers_notifies, app_nil_r.
    assert (getWorkerNum p' = getWorkerNum p1) by (subst p'; reflexivity). lia.
  - subst w' p'. lia.
Qed.

(** X2 at one worker and three pending tasks: one thread is started. *)
Lemma manager_scale_up_bounds_witness :
  exists w' p',
    manager_cycle (mkWorld 2 [], one_worker_three_tasks) = Some (w', p')
    /\ spawned_workers (trace w') = [2%nat]
    /\ 2 * 1 < getTaskNum one_worker_three_tasks
    /\ getWorkerNum p' <= 8.
Proof.
  eexists _, _. split; [reflexivity|]. split; [reflexivity|].
  destruct (manager_scale_up_bounds (mkWorld 2 []) _ one_worker_three_tasks _ eq_refl)
    as (_ & H & _).
  destruct (H eq_refl) as (_ & Htasks & _ & _ & Hmax).
  split; [apply Htasks; vm_compute; discriminate | exact Hmax].
Defined.

(** C1 fails on the code already at one worker: with three pending tasks and
    a maximum of eight, the cycle starts one thread, which is more than half
    of the current worker count and doubles it. *)
Lemma scale_up_exceeds_half :
  exists w' p',
    manager_cycle (mkWorld 2 [], one_worker_three_tasks) = Some (w', p')
    /\ getWorkerNum (snd (reap (mkWorld 2 [], one_worker_three_tasks))) = 1
    /\ spawned_workers (trace w') = [2%nat]
    /\ getWorkerNum p' = 2
    /\ ~ (2 * Z.of_nat (length (spawned_workers (trace w')))
          <= getWorkerNum (snd (reap (mkWorld 2 [], one_worker_three_tasks)))).
Proof.
  eexists _, _. split; [reflexivity|].
  split; [reflexivity|]. split; [reflexivity|]. split; [reflexivity|].
  intros H. vm_compute in H. apply H. reflexivity.
Qed.

(** The clean-up step hands out no thread id and adds no key. *)
Lemma reap_fold_keys (ids : list nat) (w : World) (ws : gmap nat thread) (n : nat) :
  keys_below n ws ->
  let st := foldl reap_one (w, ws) ids in
  next_tid (fst st) = next_tid w /\ keys_below n (snd st).
Proof.
  revert w ws. induction ids as [|i ids IH]; intros w ws Hk.
  - split; [reflexivity | exact Hk].
  - change (foldl reap_one (w, ws) (i :: ids))
      with (foldl reap_one (reap_one (w, ws) i) ids).
    destruct (reap_one (w, ws) i) as [w1 ws1] eqn:E.
    assert (Hstep : next_tid w1 = next_tid w /\ keys_below n ws1).
    { unfold reap_one in E. destruct (ws !! i) as [th|] eqn:Hi.
      - injection E as <- <-. split; [now destruct th|].
        intros k [x Hx]. apply lookup_delete_Some in Hx as [_ Hx].
        apply Hk. now exists x.
      - injection E as <- <-. split; [reflexivity | exact Hk]. }
    destruct Hstep as [Ht Hk1]. destruct (IH w1 ws1 Hk1) as [Ht' Hk'].
    cbn zeta. split; [now rewrite Ht' | exact Hk'].
Qed.

Lemma reap_keys (w : World) (p : ThreadPool true) (n : nat) :
  keys_below n (m_workers p) ->
  next_tid (fst (reap (w, p))) = next_tid w
  /\ keys_below n (m_workers (snd (reap (w, p)))).
Proof.
  intros Hk. unfold reap.
  pose proof (reap_fold_keys (workerExitId_deque (m_dynamic p)) w (m_workers p) n Hk)
    as Hfold.
  cbn zeta in Hfold.
  destruct (foldl reap_one _ _) as [w1 ws1]. exact Hfold.
Qed.

(** C1. The claim holds of the intent the code states (the comment above the
    cap reads: grow to at most 1.5 times the current count) and fails on the
    code.  With [W] workers after the clean-up step, room for [W / 2 + 1]
    more below [maxThreads] and more than [2 * W] and [W * (W / 2)] pending
    tasks, the cycle starts exactly [W / 2 + 1] threads: more than half of
    [W], for a worker count beyond one and a half times [W]. *)
Theorem scale_up_overshoots_half (w : World) (p : ThreadPool true) :
  m_stop p = false ->
  keys_below (next_tid w) (m_workers p) ->
  0 < getWorkerNum (snd (reap (w, p))) ->
  2 * getWorkerNum (snd (reap (w, p))) < getTaskNum p ->
  getWorkerNum (snd (reap (w, p))) * (getWorkerNum (snd (reap (w, p))) / 2)
    < getTaskNum p ->
  getTaskNum p + getWorkerNum (snd (reap (w, p))) < SizeT.modulus ->
  getWorkerNum (snd (reap (w, p))) + getWorkerNum (snd (reap (w, p))) / 2 + 1
    <= maxThreads (m_dynamic p) < SizeT.modulus ->
  let W := getWorkerNum (snd (reap (w, p))) in
  exists w' p',
    manager_cycle (w, p) = Some (w', p')
    /\ Z.of_nat (length (spawned_workers (trace w')))
       - Z.of_nat (length (spawned_workers (trace w))) = W / 2 + 1
    /\ getWorkerNum p' = W + (W / 2 + 1)
    /\ W < 2 * (W / 2 + 1)
    /\ 3 * W < 2 * getWorkerNum p'.
Proof.
  intros Hs Hkeys.
  destruct (reap_keys w p _ Hkeys) as [Ht Hk1].
  pose proof (reap_observed w p) as Hreap. cbn zeta in Hreap.
  unfold manager_cycle. cbn [snd]. rewrite Hs.
  destruct (reap (w, p)) as [w1 p1]. cbn [fst snd] in *.
  destruct Hreap as (Hsp & _ & _ & Hq & _ & Hmax & _).
  unfold getTaskNum. rewrite <- Hq, <- Hmax, <- Hsp.
  fold (getTaskNum p1).
  intros HW H2 Hsq Hrange Hroom. cbv zeta.
  rewrite <- Ht in Hk1.
  pose proof (spawn_dynamic_iter (Z.to_nat (getWorkerNum p1 / 2 + 1)) w1 p1 Hk1) as Hit.
  cbn zeta in Hit. rewrite <- repeat_size_t_nat in Hit.
  unfold rebalance.
  assert (Hhalf : 0 <= getWorkerNum p1 / 2) by (apply Z.div_pos; lia).
  assert (Hodd : getWorkerNum p1 < 2 * (getWorkerNum p1 / 2 + 1)).
  { pose proof (Z.mul_succ_div_gt (getWorkerNum p1) 2 ltac:(lia)). lia. }
  revert HW H2 Hsq Hrange Hroom Hhalf Hodd Hit.
  generalize (getTaskNum p1) as T. generalize (m_dynamic p1 : DynamicMembers) as d.
  generalize (getWorkerNum p1) as W.
  intros W d T HW H2 Hsq Hrange Hroom Hhalf Hodd Hit.
  assert (Hmod : SizeT.modulus = 2 ^ 64) by reflexivity.
  assert (E1 : SizeT.mul W 2 = W * 2).
  { apply SizeT_wrap_small. unfold SizeT.in_range. lia. }
  assert (E2 : SizeT.sub (SizeT.add T W) 1 = T + W - 1).
  { unfold SizeT.sub, SizeT.add.
    rewrite (SizeT_wrap_small (T + W)) by (unfold SizeT.in_range; lia).
    apply SizeT_wrap_small. unfold SizeT.in_range. lia. }
  assert (E3 : SizeT.sub (maxThreads d) W = maxThreads d - W).
  { apply SizeT_wrap_small. unfold SizeT.in_range. lia. }
  assert (E4 : SizeT.add (W / 2) 1 = W / 2 + 1).
  { apply SizeT_wrap_small. unfold SizeT.in_range. lia. }
  assert (Hest : W / 2 + 1 <= (T + W - 1) / W).
  { apply Z.div_le_lower_bound; [lia|]. nia. }
  rewrite E1, E2, E3, E4.
  rewrite (proj2 (Z.ltb_lt (W * 2) T)) by lia.
  rewrite (proj2 (Z.ltb_lt W (maxThreads d))) by lia.
  cbn [andb]. unfold SizeT.div. rewrite decide_False by lia.
  rewrite (Z.min_r _ (W / 2 + 1)) by (apply Z.min_glb; lia).
  destruct (repeat_size_t (W / 2 + 1) spawn_dynamic (w1, p1)) as [w' p'].
  cbn [fst snd] in Hit.
  destruct Hit as (_ & Htr & _ & Hsz & _).
  exists w', p'. split; [reflexivity|].
  rewrite Htr, spawned_workers_app, spawned_workers_spawns, length_app, length_seq.
  rewrite Hsz. repeat split; lia.
Qed.

(** C1 at four workers and nine pending tasks, with a maximum of sixteen:
    three threads are started and the pool has seven workers. *)
Lemma scale_up_overshoots_half_witness :
  exists w' p',
    manager_cycle (mkWorld 5 [], four_workers_nine_tasks) = Some (w', p')
    /\ Z.of_nat (length (spawned_workers (trace w'))) = 3
    /\ getWorkerNum p' = 7.
Proof.
  assert (Hkeys : keys_below 5 (m_workers four_workers_nine_tasks)).
  { intros k [x Hx]. unfold four_workers_nine_tasks in Hx. cbn [m_workers] in Hx.
    repeat (apply lookup_insert_Some in Hx as [[<- _]|[_ Hx]]; [lia|]).
    apply lookup_singleton_Some in Hx as [<- _]. lia. }
  assert (Hroom : 4 + 4 / 2 + 1 <= 16 < SizeT.modulus).
  { split; [vm_compute; discriminate | reflexivity]. }
  destruct (scale_up_overshoots_half (mkWorld 5 []) four_workers_nine_tasks
              eq_refl Hkeys eq_refl eq_refl eq_refl eq_refl Hroom)
    as (w' & p' & Hcycle & Hcreated & Hworkers & _).
  change (getWorkerNum (snd (reap (mkWorld 5 [], four_workers_nine_tasks))))
    with 4 in Hcreated, Hworkers.
  change (Z.of_nat (length (spawned_workers (trace (mkWorld 5 []))))) with 0 in Hcreated.
  change (4 / 2 + 1) with 3 in Hcreated, Hworkers.
  exists w', p'. split; [exact Hcycle|]. split; [lia | exact Hworkers].
Defined.

(** ** Workers and the exit counter *)

Lemma dispatch_contains (t : Task) (w : World) : snd (dispatch t w) = None.
Proof.
  unfold dispatch, invoke.
  destruct (task_callable t); [|reflexivity].
  destruct (task_body t) as [e|]; [|reflexivity].
  destruct (as_std_exception e); reflexivity.
Qed.

(** A pass of a dynamic-mode worker over a running pool returns from the
    thread function exactly when it consumes one unit of [workerExitNum]. *)
Lemma worker_iter_exit_counter (tid : nat) (w : World) (p : ThreadPool true) :
  m_stop p = false ->
  0 <= workerExitNum (m_dynamic p) < SizeT.modulus ->
  let r := worker_iter tid (w, p) in
  m_stop (snd (fst r)) = false
  /\ ((snd r = Finished /\ 0 < workerExitNum (m_dynamic p)
       /\ workerExitNum (m_dynamic (snd (fst r))) = workerExitNum (m_dynamic p) - 1)
      \/ (snd r <> Finished
          /\ workerExitNum (m_dynamic (snd (fst r))) = workerExitNum (m_dynamic p))).
Proof.
  intros Hs Hr. unfold worker_iter. rewrite Hs.
  destruct (negb (waitCond p)); [cbn; split; [exact Hs|right; split; [discriminate|reflexivity]]|].
  cbn [dynamic_get].
  destruct (0 <? workerExitNum (m_dynamic p)) eqn:Hpos.
  - apply Z.ltb_lt in Hpos. cbn. rewrite Hs. cbn. split; [reflexivity|].
    left. split; [reflexivity|]. split; [exact Hpos|].
    unfold SizeT.sub. apply SizeT_wrap_small. unfold SizeT.in_range. lia.
  - destruct (m_taskQueue p) as [|task rest].
    + cbn. split; [exact Hs|]. right. split; [discriminate|reflexivity].
    + pose proof (dispatch_contains task
                    (if decide (m_queueFullPolicy p = kReject) then w
                     else emit (EvNotifyNotFull false) w)) as Hd.
      destruct (dispatch task _) as [w2 escaped]. cbn [snd] in Hd. subst escaped.
      cbn. split; [exact Hs|]. right. split; [discriminate|reflexivity].
Qed.

Lemma run_workers_exits (tids : list nat) (w : World) (p : ThreadPool true) :
  m_stop p = false ->
  0 <= workerExitNum (m_dynamic p) < SizeT.modulus ->
  Z.of_nat (snd (run_workers tids (w, p))) <= workerExitNum (m_dynamic p).
Proof.
  revert w p. induction tids as [|tid tids IH]; intros w p Hs Hr.
  - cbn. lia.
  - cbn [run_workers].
    pose proof (worker_iter_exit_counter tid w p Hs Hr) as Hit. cbn zeta in Hit.
    destruct (worker_iter tid (w, p)) as [[w1 p1] pc]. cbn [fst snd] in Hit.
    destruct Hit as [Hs1 Hcase].
    assert (Hr1 : 0 <= workerExitNum (m_dynamic p1) < SizeT.modulus)
      by (destruct Hcase as [(_ & ? & ->)|(_ & ->)]; lia).
    specialize (IH w1 p1 Hs1 Hr1).
    destruct (run_workers tids (w1, p1)) as [st2 k]. cbn [snd] in *.
    destruct Hcase as [(-> & Hpos & Heq)|(Hne & Heq)].
    + lia.
    + destruct pc; [lia | lia | congruence].
Qed.

(** C2. In one manager cycle, with [W] the worker count after the clean-up
    step: workers are signalled to terminate only if the idle count exceeds
    [W / 2] and [W] exceeds [max(minThreads, 1)]; the number signalled is what
    [workerExitNum] is set to; it leaves at least [max(minThreads, 1)]
    workers; and however the workers then take turns at their loop, each
    thread that returns consumes one unit of the counter, so at least that
    many workers remain.  No bound on [W] or [minThreads] is needed. *)
Theorem manager_scale_down_floor (w w' : World) (p p' : ThreadPool true)
    (tids : list nat) :
  manager_cycle (w, p) = Some (w', p') ->
  let W := getWorkerNum (snd (reap (w, p))) in
  let floor := Z.max (minThreads (m_dynamic p)) 1 in
  let signalled := Z.of_nat (wakeups (trace w')) - Z.of_nat (wakeups (trace w)) in
  0 <= signalled
  /\ (0 < signalled ->
        W / 2 < idleThreads (m_dynamic p)
        /\ floor < W
        /\ workerExitNum (m_dynamic p') = signalled
        /\ floor <= W - signalled
        /\ floor <= W - Z.of_nat (snd (run_workers tids (w', p')))).
Proof.
  intros Hcycle.
  pose proof (reap_observed w p) as Hreap. cbn zeta in Hreap.
  apply manager_cycle_inv in Hcycle.
  destruct (reap (w, p)) as [w1 p1]. cbn [fst snd] in *.
  destruct Hreap as (_ & Hwk & Hstop & _ & Hmin & _ & Hidle).
  cbn zeta. rewrite <- Hwk.
  destruct Hcycle as [(_ & -> & ->)|[Hs Hreb]].
  { rewrite Hwk. lia. }
  destruct Hreb as [need _ _ _ _ Hst | r Hlt1 Hlt2 Hr Hmod Hw Hp | Hw Hp].
  - rewrite (repeat_size_t_nat need) in Hst.
    pose proof (spawn_dynamic_iter_any (Z.to_nat need) w1 p1) as Hit.
    cbn zeta in Hit. rewrite <- Hst in Hit. cbn [fst snd] in Hit.
    destruct Hit as (Htr & _).
    rewrite Htr, wakeups_app, wakeups_spawns. lia.
  - subst w'. rewrite (repeat_size_t_nat r).
    destruct (emit_iter (Z.to_nat r) (EvNotifyNotEmpty false) w1) as [_ Htr].
    rewrite Htr, wakeups_app, wakeups_notifies.
    rewrite <- Hmin, <- Hidle.
    split; [lia|]. intros _.
    assert (Hexit : workerExitNum (m_dynamic p') = r) by (subst p'; reflexivity).
    assert (Hs' : m_stop p' = false) by (subst p'; cbn; congruence).
    pose proof (run_workers_exits tids
                  (repeat_size_t (Z.of_nat (Z.to_nat r)) (emit (EvNotifyNotEmpty false)) w1)
                  p' Hs' ltac:(lia)) as Hrun.
    repeat split; try lia.
  - subst w'. lia.
Qed.

(** C2 at four idle workers and [minThreads = 0]: two are signalled, and
    six worker passes later at least one worker remains. *)
Lemma manager_scale_down_floor_witness :
  exists w' p',
    manager_cycle (mkWorld 5 [], four_idle_workers) = Some (w', p')
    /\ wakeups (trace w') = 2%nat
    /\ workerExitNum (m_dynamic p') = 2
    /\ 1 <= 4 - Z.of_nat (snd (run_workers [0; 1; 2; 3; 0; 1]%nat (w', p'))).
Proof.
  eexists _, _. split; [reflexivity|]. split; [reflexivity|].
  destruct (manager_scale_down_floor (mkWorld 5 []) _ four_idle_workers _
              [0; 1; 2; 3; 0; 1]%nat eq_refl) as (_ & H).
  destruct (H eq_refl) as (_ & _ & He & _ & Hk).
  split; [exact He | exact Hk].
Defined.

(** ** [stop] *)

Lemma stop_when_stopped {D} (w : World) (p : ThreadPool D) :
  m_stop p = true -> stop (w, p) = (w, p).
Proof. intros Hs. unfold stop, compare_exchange_strong. now rewrite Hs. Qed.

Lemma if_dynamic_shared {D} (f : DynamicMembers -> DynamicMembers) (p : ThreadPool D) :
  m_stop (if_dynamic f p) = m_stop p
  /\ m_taskQueue (if_dynamic f p) = m_taskQueue p
  /\ m_workers (if_dynamic f p) = m_workers p
  /\ m_queueFullPolicy (if_dynamic f p) = m_queueFullPolicy p.
Proof. destruct D; repeat split. Qed.

Lemma stop_manager_shared {D} (w : World) (p : ThreadPool D) :
  let st := stop_manager (w, p) in
  m_stop (snd st) = m_stop p
  /\ m_taskQueue (snd st) = m_taskQueue p
  /\ shutdowns (trace (fst st)) = shutdowns (trace w)
  /\ runs (trace (fst st)) = runs (trace w).
Proof.
  unfold stop_manager.
  destruct (dynamic_get _ None p) as [mgr|]; [|repeat split].
  cbn [fst snd].
  destruct (if_dynamic_shared
              (fun d => set_exitDeque [] (set_managerThread NotAThread d)) p)
    as (-> & -> & _).
  split; [reflexivity|]. split; [reflexivity|].
  unfold shutdowns, runs.
  destruct mgr as [|tid]; cbn [join_thread emit trace];
    rewrite ?omap_app, ?length_app; cbn;
    rewrite ?app_nil_r; split; try reflexivity; lia.
Qed.

Lemma join_all_observed (ths : list thread) (w : World) :
  shutdowns (trace (foldl join_thread w ths)) = shutdowns (trace w)
  /\ runs (trace (foldl join_thread w ths)) = runs (trace w).
Proof.
  revert w. induction ths as [|th ths IH]; intros w; [split; reflexivity|].
  cbn [foldl]. destruct (IH (join_thread w th)) as [-> ->].
  unfold shutdowns, runs.
  destruct th as [|tid]; cbn [join_thread emit trace]; [split; reflexivity|].
  rewrite !omap_app, length_app. cbn.
  rewrite app_nil_r. split; [lia | reflexivity].
Qed.

(** What the first effective call does to the stop flag, the queue and the
    trace. *)
Lemma stop_when_running {D} (w : World) (p : ThreadPool D) :
  m_stop p = false ->
  let st := stop (w, p) in
  m_stop (snd st) = true
  /\ m_taskQueue (snd st) = m_taskQueue p
  /\ shutdowns (trace (fst st)) = S (shutdowns (trace w))
  /\ runs (trace (fst st)) = runs (trace w).
Proof.
  intros Hs. unfold stop, compare_exchange_strong. rewrite Hs.
  cbn [bool_decide decide_rel negb].
  rewrite bool_decide_eq_true_2 by reflexivity. cbn [negb].
  pose proof (stop_manager_shared w (set_stop true p)) as Hm. cbn zeta in Hm.
  destruct (stop_manager (w, set_stop true p)) as [w1 p1]. cbn [fst snd] in *.
  destruct Hm as (Hs1 & Hq1 & Hsh & Hru).
  destruct (join_all_observed (workers_threads (m_workers p1))
              (emit (EvNotifyNotFull true) (emit (EvNotifyNotEmpty true) w1)))
    as [-> ->].
  cbn [m_stop m_taskQueue set_workers].
  split; [exact Hs1|]. split; [exact Hq1|].
  unfold shutdowns, runs in *. cbn [emit trace].
  rewrite !omap_app, !length_app. cbn.
  rewrite !app_nil_r, Hsh, Hru. split; [lia | reflexivity].
Qed.

Lemma stop_iterated {D} (n : nat) (st : World * ThreadPool D) :
  Nat.iter (S n) stop st = stop st.
Proof.
  induction n as [|n IH]; [reflexivity|].
  change (Nat.iter (S (S n)) stop st) with (stop (Nat.iter (S n) stop st)).
  rewrite IH. destruct st as [w p].
  destruct (m_stop p) eqn:Hs.
  - rewrite !stop_when_stopped by exact Hs. reflexivity.
  - pose proof (stop_when_running w p Hs) as H. cbn zeta in H.
    destruct (stop (w, p)) as [w1 p1]. cbn [fst snd] in H.
    apply stop_when_stopped. tauto.
Qed.

(** Once the flag is set a worker's pass runs no task and takes none. *)
Lemma run_workers_stopped {D} (tids : list nat) (w : World) (p : ThreadPool D) :
  m_stop p = true ->
  let r := run_workers tids (w, p) in
  trace (fst (fst r)) = trace w
  /\ m_taskQueue (snd (fst r)) = m_taskQueue p
  /\ snd r = length tids.
Proof.
  revert w p. induction tids as [|tid tids IH]; intros w p Hs; [repeat split|].
  cbn [run_workers]. unfold worker_iter. rewrite Hs.
  unfold worker_epilogue.
  match goal with
  | |- context [if_dynamic ?f ?q] =>
      destruct (if_dynamic_shared f q) as (Hs' & Hq' & _);
      specialize (IH w (if_dynamic f q))
  end.
  cbn [m_stop m_taskQueue set_activeWorkers] in Hs', Hq'.
  specialize (IH (eq_trans Hs' Hs)). cbn zeta in IH.
  destruct (run_workers tids _) as [[w2 p2] k]. cbn [fst snd] in *.
  destruct IH as (-> & -> & ->). rewrite Hq'. repeat split.
Qed.

(** C4. [stop] is idempotent.  On a running pool the first call wins the
    exchange on [m_stop] and runs the shutdown sequence once; any further
    calls, however many, return at once and leave pool and trace as the first
    call left them, so the sequence has run exactly once.  On a stopped pool
    a call changes nothing.  [stop] itself leaves the queue as it is and runs
    no task, and no worker pass after it runs or removes a queued task: what
    was queued at [stop] is not run. *)
Theorem stop_is_idempotent {D} (w : World) (p : ThreadPool D) (n : nat)
    (tids : list nat) :
  let first := stop (w, p) in
  let later := Nat.iter (S n) stop (w, p) in
  m_stop (snd first) = true
  /\ stop first = first
  /\ later = first
  /\ (if m_stop p then first = (w, p)
      else shutdowns (trace (fst later)) = S (shutdowns (trace w)))
  /\ m_taskQueue (snd first) = m_taskQueue p
  /\ runs (trace (fst first)) = runs (trace w)
  /\ runs (trace (fst (fst (run_workers tids first)))) = runs (trace w)
  /\ m_taskQueue (snd (fst (run_workers tids first))) = m_taskQueue p.
Proof.
  cbn zeta. rewrite stop_iterated.
  assert (Hfirst : m_stop (snd (stop (w, p))) = true
                   /\ m_taskQueue (snd (stop (w, p))) = m_taskQueue p
                   /\ runs (trace (fst (stop (w, p)))) = runs (trace w)
                   /\ (if m_stop p then stop (w, p) = (w, p)
                       else shutdowns (trace (fst (stop (w, p))))
                            = S (shutdowns (trace w)))).
  { destruct (m_stop p) eqn:Hs.
    - rewrite stop_when_stopped by exact Hs. cbn. tauto.
    - pose proof (stop_when_running w p Hs) as H. cbn zeta in H. tauto. }
  destruct Hfirst as (Hs1 & Hq1 & Hr1 & Hcase).
  destruct (stop (w, p)) as [w1 p1] eqn:Hstop. cbn [fst snd] in *.
  pose proof (run_workers_stopped tids w1 p1 Hs1) as Hrun. cbn zeta in Hrun.
  destruct Hrun as (Htr & Hq & _).
  rewrite Htr, Hq.
  repeat split; try assumption.
  now apply stop_when_stopped.
Qed.

(** ** [addTask] on a full queue *)

Lemma wakeup_leaves_loop {D} (p : ThreadPool D) :
  not_full_or_stopped p = true -> queue_full p && negb (m_stop p) = false.
Proof.
  unfold not_full_or_stopped, queue_full. intros H.
  apply orb_true_iff in H as [H|H].
  - apply Z.ltb_lt in H. apply andb_false_iff. left. apply Z.leb_gt. exact H.
  - rewrite H. apply andb_false_r.
Qed.

Lemma full_and_running_waits {D} (p : ThreadPool D) :
  queue_full p = true -> m_stop p = false -> not_full_or_stopped p = false.
Proof.
  unfold not_full_or_stopped, queue_full. intros Hf Hs. rewrite Hs.
  apply Z.leb_le in Hf. rewrite orb_false_r. apply Z.ltb_ge. exact Hf.
Qed.

Lemma state_after_S {D} (k : nat) dt i (env : Schedule) (p : ThreadPool D) :
  state_after (S k) ((dt, i) :: env) p = state_after k env (interfere i p).
Proof. reflexivity. Qed.

(** [cv.wait] returns at the first wake-up of the schedule, and only there. *)
Lemma cv_wait_spec {D} (env : Schedule) (p : ThreadPool D) :
  match cv_wait not_full_or_stopped env p with
  | Some (p1, env1) =>
      exists k, first_wakeup k env p /\ p1 = state_after k env p /\ env1 = drop k env
  | None =>
      forall k, (k <= length env)%nat -> not_full_or_stopped (state_after k env p) = false
  end.
Proof.
  revert p. induction env as [|[dt i] env IH]; intros p; cbn [cv_wait].
  - destruct (not_full_or_stopped p) eqn:Hp.
    + exists O. repeat split; [cbn; lia | exact Hp | intros j Hj; lia].
    + intros k Hk. cbn in Hk. replace k with O by lia. exact Hp.
  - destruct (not_full_or_stopped p) eqn:Hp.
    + exists O. repeat split; [cbn; lia | exact Hp | intros j Hj; lia].
    + specialize (IH (interfere i p)).
      destruct (cv_wait not_full_or_stopped env (interfere i p)) as [[p1 env1]|].
      * destruct IH as (k & (Hk & Hpred & Hmin) & -> & ->).
        exists (S k). repeat split.
        -- cbn. lia.
        -- rewrite state_after_S. exact Hpred.
        -- intros [|j] Hj; [exact Hp|]. rewrite state_after_S. apply Hmin. lia.
      * intros [|k] Hk; [exact Hp|]. rewrite state_after_S. apply IH. cbn in Hk. lia.
Qed.

Lemma first_wakeup_unique {D} (k k' : nat) (env : Schedule) (p : ThreadPool D) :
  first_wakeup k env p -> first_wakeup k' env p -> k = k'.
Proof.
  intros (_ & Hk & Hmin) (_ & Hk' & Hmin').
  destruct (Nat.lt_trichotomy k k') as [Hlt|[Heq|Hgt]]; [|exact Heq|].
  - rewrite (Hmin' k Hlt) in Hk. discriminate.
  - rewrite (Hmin k' Hgt) in Hk'. discriminate.
Qed.

(** [cv.wait_for] never reports more waiting than its budget, reports [true]
    only with the predicate true, and returns one of the observable states. *)
Lemma cv_wait_for_spec {D} (env : Schedule) (budget : Z) (p : ThreadPool D) :
  let '(result, p1, env1, spent) := cv_wait_for not_full_or_stopped budget env p in
  (not_full_or_stopped p = false \/ 0 <= budget -> spent <= budget)
  /\ result = not_full_or_stopped p1
  /\ p1 ∈ observed_within budget env p.
Proof.
  revert budget p. induction env as [|[dt i] env IH]; intros budget p;
    cbn [cv_wait_for observed_within].
  - destruct (not_full_or_stopped p) eqn:Hp.
    + repeat split; [intros [?|?]; [discriminate|lia] | now rewrite Hp | apply list_elem_of_here].
    + repeat split; [lia | now rewrite Hp | apply list_elem_of_here].
  - destruct (not_full_or_stopped p) eqn:Hp.
    + repeat split; [intros [?|?]; [discriminate|lia] | now rewrite Hp | apply list_elem_of_here].
    + destruct (dt <=? budget) eqn:Hdt.
      * apply Z.leb_le in Hdt.
        specialize (IH (budget - dt) (interfere i p)).
        destruct (cv_wait_for not_full_or_stopped (budget - dt) env (interfere i p))
          as [[[result p1] env1] spent].
        destruct IH as (Hspent & Hres & Hin).
        repeat split; [intros _; specialize (Hspent ltac:(right; lia)); lia
                      | exact Hres | apply list_elem_of_further, Hin].
      * repeat split; [lia | now rewrite Hp | apply list_elem_of_here].
Qed.

Lemma addTask_loop_falls_out {D} (fuel : nat) (env : Schedule) (p : ThreadPool D) (t : Z) :
  not_full_or_stopped p = true ->
  addTask_loop (S fuel) env p t = inr (p, env, t).
Proof. intros H. cbn [addTask_loop]. now rewrite wakeup_leaves_loop. Qed.

(** C3 (amended). A running pool with a bounded, full queue and any schedule
    of the other threads.  Reject: [addTask] returns false at once, having
    waited for nothing and changed nothing.  Block: it stays parked while no
    slot is free and the pool runs; at the first wake-up it returns true with
    the task at the back of the queue if the pool still runs, and returns
    false without enqueueing if the pool has stopped.  Timeout: it waits at
    most [m_timeoutMS], and if the queue was full in every state observable
    within that time it returns false and the pool is one of these states. *)
Theorem addTask_on_full_queue {D} (fuel : nat) (task : Task) (env : Schedule)
    (w : World) (p : ThreadPool D) :
  m_stop p = false ->
  0 < m_maxQueueSize p ->
  queue_full p = true ->
  (2 <= fuel)%nat ->
  let r := addTask fuel task env (w, p) in
  match m_queueFullPolicy p with
  | kReject => r = mkRun (Failed RejectedFull) w p env 0
  | kBlock =>
      ((forall k, (k <= length env)%nat ->
                  not_full_or_stopped (state_after k env p) = false) ->
       run_completion r = ParkedForever)
      /\ (forall k, first_wakeup k env p ->
            let p1 := state_after k env p in
            run_env r = drop k env
            /\ if m_stop p1
               then r = mkRun (Failed StoppedAfterWait) w p1 (drop k env) 0
               else r = mkRun Succeeded (emit (EvNotifyNotEmpty false) w)
                              (set_taskQueue (m_taskQueue p1 ++ [task]) p1)
                              (drop k env) 0)
  | kTimeout =>
      run_waited r <= m_timeoutMS p
      /\ (Forall (fun s => queue_full s = true) (observed_within (m_timeoutMS p) env p) ->
          returned (run_completion r) = Some false
          /\ run_pool r ∈ observed_within (m_timeoutMS p) env p
          /\ run_world r = w)
  end.
Proof.
  intros Hs Hmax Hfull Hfuel.
  destruct fuel as [|[|fuel]]; [lia | lia |].
  unfold addTask. rewrite Hs.
  apply Z.ltb_lt in Hmax. rewrite Hmax.
  cbn [addTask_loop]. rewrite Hfull, Hs. cbn [negb andb].
  destruct (m_queueFullPolicy p) eqn:Hpol.
  - reflexivity.
  - pose proof (cv_wait_spec env p) as Hwait.
    destruct (cv_wait not_full_or_stopped env p) as [[p1 env1]|].
    + destruct Hwait as (k & Hk & -> & ->).
      assert (Hpred := proj1 (proj2 Hk)).
      rewrite (wakeup_leaves_loop _ Hpred). split.
      * intros Hnever. rewrite (Hnever k (proj1 Hk)) in Hpred. discriminate.
      * intros k' Hk'. rewrite <- (first_wakeup_unique _ _ _ _ Hk Hk').
        cbn zeta. destruct (m_stop (state_after k env p)); cbn; split; reflexivity.
    + split; [reflexivity|].
      intros k (Hlen & Hpred & _). rewrite (Hwait k Hlen) in Hpred. discriminate.
  - pose proof (cv_wait_for_spec env (m_timeoutMS p) p) as Hwait.
    destruct (cv_wait_for not_full_or_stopped (m_timeoutMS p) env p)
      as [[[result p1] env1] spent].
    destruct Hwait as (Hspent & Hres & Hin).
    specialize (Hspent (or_introl (full_and_running_waits p Hfull Hs))).
    destruct result; cbn [negb].
    + rewrite (wakeup_leaves_loop p1 (eq_sym Hres)).
      split; [destruct (m_stop p1); cbn; lia|].
      intros Hall. rewrite Forall_forall in Hall. specialize (Hall p1 Hin).
      destruct (m_stop p1) eqn:Hs1; [cbn; repeat split; exact Hin|].
      rewrite (full_and_running_waits p1 Hall Hs1) in Hres. discriminate.
    + cbn. split; [lia|]. intros _. repeat split. exact Hin.
Qed.

(** C3, block policy: the caller sleeps through a spurious wake-up and
    enqueues once a worker has taken the queued task. *)
Lemma addTask_on_full_queue_witness :
  first_wakeup 2 [(3, ISpurious); (4, IPop)] full_blocking_pool
  /\ addTask 2 (mkTask 2 true None) [(3, ISpurious); (4, IPop)]
             (mkWorld 1 [], full_blocking_pool)
     = mkRun Succeeded (mkWorld 1 [EvNotifyNotEmpty false])
             (set_taskQueue [mkTask 2 true None] full_blocking_pool) [] 0.
Proof.
  assert (Hk : first_wakeup 2 [(3, ISpurious); (4, IPop)] full_blocking_pool).
  { split; [cbn; lia|]. split; [reflexivity|].
    intros [|[|j]] Hj; [reflexivity | reflexivity | lia]. }
  split; [exact Hk|].
  exact (proj2 (proj2 (addTask_on_full_queue 2 (mkTask 2 true None)
                         [(3, ISpurious); (4, IPop)] (mkWorld 1 []) full_blocking_pool
                         eq_refl eq_refl eq_refl (le_n 2)) 2%nat Hk)).
Defined.

(** C3 as stated fails for the block policy: when the wait ends because the
    pool stops, [addTask] returns false and the task is not enqueued. *)
Lemma block_policy_returns_false_on_stop :
  first_wakeup 1 [(5, IStop)] full_blocking_pool
  /\ m_stop (state_after 1 [(5, IStop)] full_blocking_pool) = true
  /\ addTask 2 (mkTask 2 true None) [(5, IStop)] (mkWorld 1 [], full_blocking_pool)
     = mkRun (Failed StoppedAfterWait) (mkWorld 1 [])
             (set_stop true full_blocking_pool) [] 0
  /\ returned (Failed StoppedAfterWait) = Some false
  /\ m_taskQueue (set_stop true full_blocking_pool) = m_taskQueue full_blocking_pool.
Proof.
  split.
  { split; [cbn; lia|]. split; [reflexivity|].
    intros [|j] Hj; [reflexivity | lia]. }
  repeat split.
Qed.

(** ** Every way [addTask] can end *)

Lemma interfere_policy {D} (i : Interference) (p : ThreadPool D) :
  m_queueFullPolicy (interfere i p) = m_queueFullPolicy p
  /\ m_maxQueueSize (interfere i p) = m_maxQueueSize p.
Proof. destruct i; split; reflexivity. Qed.

Lemma state_after_policy {D} (k : nat) (env : Schedule) (p : ThreadPool D) :
  m_queueFullPolicy (state_after k env p) = m_queueFullPolicy p
  /\ m_maxQueueSize (state_after k env p) = m_maxQueueSize p.
Proof.
  revert k p. induction env as [|[dt i] env IH]; intros [|k] p; try (split; reflexivity).
  rewrite state_after_S. destruct (IH k (interfere i p)) as [-> ->].
  apply interfere_policy.
Qed.

Lemma observed_is_state_after {D} (budget : Z) (env : Schedule) (p p1 : ThreadPool D) :
  p1 ∈ observed_within budget env p -> exists k, p1 = state_after k env p.
Proof.
  revert budget p. induction env as [|[dt i] env IH]; intros budget p;
    cbn [observed_within]; intros Hin.
  - apply list_elem_of_singleton in Hin. exists O. exact Hin.
  - apply elem_of_cons in Hin as [->|Hin]; [now exists O|].
    destruct (dt <=? budget); [|now apply elem_of_nil in Hin].
    destruct (IH _ _ Hin) as [k ->]. now exists (S k).
Qed.









(** ** The worker loop and escaping exceptions *)

Lemma if_dynamic_idle_shared {D} (n : Z -> Z) (p : ThreadPool D) :
  let p' := if_dynamic (fun d => set_idleThreads (n (idleThreads d)) d) p in
  m_stop p' = m_stop p
  /\ exit_requested p' = exit_requested p
  /\ m_taskQueue p' = m_taskQueue p
  /\ m_activeWorkers p' = m_activeWorkers p
  /\ m_queueFullPolicy p' = m_queueFullPolicy p.
Proof. destruct D; repeat split. Qed.

Lemma dispatch_observed (t : Task) (w : World) :
  runs (trace (fst (dispatch t w))) = runs (trace w) ++ task_runs t
  /\ stderr_lines (trace (fst (dispatch t w))) = stderr_lines (trace w) ++ task_log t.
Proof.
  unfold dispatch, invoke, task_runs, task_log, runs, stderr_lines.
  destruct (task_callable t); [|cbn; now rewrite !app_nil_r].
  destruct (task_body t) as [[what|what|what|]|]; cbn;
    rewrite ?omap_app; cbn; rewrite ?app_nil_r, <- ?app_assoc; split; reflexivity.
Qed.

(** One pass over a running pool with a task at the front: whatever the
    task does, the pass ends back at the loop test. *)
Lemma worker_pass {D} (tid : nat) (w : World) (p : ThreadPool D) (t : Task)
    (rest : list Task) :
  m_stop p = false ->
  exit_requested p = false ->
  m_taskQueue p = t :: rest ->
  exists w' p',
    worker_iter tid (w, p) = (w', p', AtLoopHead)
    /\ m_stop p' = false
    /\ exit_requested p' = false
    /\ m_taskQueue p' = rest
    /\ m_activeWorkers p' = m_activeWorkers p
    /\ runs (trace w') = runs (trace w) ++ task_runs t
    /\ stderr_lines (trace w') = stderr_lines (trace w) ++ task_log t.
Proof.
  intros Hs Hx Hq. unfold worker_iter, waitCond.
  fold (exit_requested p). rewrite Hs, Hx, Hq.
  rewrite bool_decide_eq_false_2 by discriminate. cbn [negb orb].
  set (w1 := if decide (m_queueFullPolicy p = kReject) then w
             else emit (EvNotifyNotFull false) w).
  assert (Hw1 : runs (trace w1) = runs (trace w)
                /\ stderr_lines (trace w1) = stderr_lines (trace w)).
  { subst w1. case_decide; [split; reflexivity|].
    unfold runs, stderr_lines. cbn. rewrite !omap_app. cbn.
    now rewrite !app_nil_r. }
  pose proof (dispatch_contains t w1) as Hnone.
  pose proof (dispatch_observed t w1) as [Hruns Hlog].
  destruct (dispatch t w1) as [w2 escaped]. cbn [fst snd] in *. subst escaped.
  eexists _, _. split; [reflexivity|].
  match goal with
  | |- context [if_dynamic (fun d => set_idleThreads (SizeT.add _ 1) d) ?q] =>
      destruct (if_dynamic_idle_shared (fun i => SizeT.add i 1) q)
        as (-> & -> & -> & -> & _)
  end.
  match goal with
  | |- context [if_dynamic (fun d => set_idleThreads (SizeT.sub _ 1) d) ?q] =>
      destruct (if_dynamic_idle_shared (fun i => SizeT.sub i 1) q)
        as (-> & -> & -> & -> & _)
  end.
  assert (Hx' : exit_requested (set_taskQueue rest p) = exit_requested p)
    by (destruct D; reflexivity).
  cbn. destruct Hw1 as [<- <-]. rewrite Hx'.
  repeat split; assumption.
Qed.

Lemma worker_parks_on_empty {D} (tid : nat) (w : World) (p : ThreadPool D) :
  m_stop p = false ->
  exit_requested p = false ->
  m_taskQueue p = [] ->
  worker_iter tid (w, p) = (w, p, ParkedOnQueue).
Proof.
  intros Hs Hx Hq. unfold worker_iter, waitCond.
  fold (exit_requested p). rewrite Hs, Hx, Hq. reflexivity.
Qed.

(** The loop on a queue of arbitrary tasks: all are taken, the thread parks. *)
Lemma worker_loop_drains {D} (fuel tid : nat) (w : World) (p : ThreadPool D) :
  m_stop p = false ->
  exit_requested p = false ->
  (length (m_taskQueue p) < fuel)%nat ->
  exists w' p',
    worker_loop fuel tid (w, p) = (w', p', ParkedOnQueue)
    /\ m_taskQueue p' = []
    /\ m_stop p' = false
    /\ m_activeWorkers p' = m_activeWorkers p
    /\ runs (trace w') = runs (trace w) ++ flat_map task_runs (m_taskQueue p)
    /\ stderr_lines (trace w') = stderr_lines (trace w) ++ flat_map task_log (m_taskQueue p).
Proof.
  remember (m_taskQueue p) as q eqn:Hq. symmetry in Hq.
  revert fuel w p Hq. induction q as [|t rest IH]; intros fuel w p Hq Hs Hx Hfuel.
  - destruct fuel as [|fuel]; [cbn in Hfuel; lia|].
    cbn [worker_loop]. rewrite (worker_parks_on_empty tid w p Hs Hx Hq).
    exists w, p. cbn. rewrite !app_nil_r. repeat split; assumption.
  - destruct fuel as [|fuel]; [cbn in Hfuel; lia|].
    cbn [worker_loop].
    destruct (worker_pass tid w p t rest Hs Hx Hq)
      as (w1 & p1 & -> & Hs1 & Hx1 & Hq1 & Ha1 & Hr1 & Hl1).
    destruct (IH fuel w1 p1 Hq1 Hs1 Hx1 ltac:(cbn in Hfuel; lia))
      as (w' & p' & -> & Hq' & Hs' & Ha' & Hr' & Hl').
    exists w', p'. cbn [flat_map].
    rewrite Hr', Hl', Hr1, Hl1, Ha', Ha1, !app_assoc. repeat split; assumption.
Qed.

(** C6. A worker thread started on a running pool, with no exit request
    pending, and a queue of tasks that return, throw a standard exception or
    throw anything else: the thread takes every task in turn, runs each
    callable one, prints one line on [stderr] for each exception and none
    otherwise, and ends parked in the wait on the empty queue, neither
    finished nor removed from the active count. *)
Theorem worker_survives_task_exceptions {D} (fuel tid : nat) (w : World)
    (p : ThreadPool D) :
  m_stop p = false ->
  exit_requested p = false ->
  (length (m_taskQueue p) < fuel)%nat ->
  exists w' p',
    worker fuel tid (w, p) = (w', p', ParkedOnQueue)
    /\ m_taskQueue p' = []
    /\ m_stop p' = false
    /\ m_activeWorkers p' = m_activeWorkers p
    /\ runs (trace w') = runs (trace w) ++ flat_map task_runs (m_taskQueue p)
    /\ stderr_lines (trace w') = stderr_lines (trace w) ++ flat_map task_log (m_taskQueue p).
Proof.
  intros Hs Hx Hfuel. unfold worker, worker_prologue. cbn [fst snd].
  destruct (if_dynamic_idle_shared (fun i => SizeT.add i 1) p)
    as (Hs' & Hx' & Hq' & Ha' & _).
  cbn zeta in *. rewrite <- Hq', <- Ha'.
  apply worker_loop_drains; congruence.
Qed.

(** C6 on three tasks: a [runtime_error], a foreign exception, a normal
    return. *)
Lemma worker_survives_task_exceptions_witness :
  exists w' p',
    worker 4 0 (mkWorld 1 [], three_unruly_tasks) = (w', p', ParkedOnQueue)
    /\ runs (trace w') = [1; 2; 3]%nat
    /\ stderr_lines (trace w') = ["Task error: boom"; "Unknown task error"].
Proof.
  destruct (worker_survives_task_exceptions 4 0 (mkWorld 1 []) three_unruly_tasks
              eq_refl eq_refl ltac:(cbn; lia))
    as (w' & p' & Hloop & _ & _ & _ & Hr & Hl).
  exists w', p'. repeat split; assumption.
Defined.

(** ** Framing with a four-byte length header *)


Lemma drain_step (b : Buffer) :
  drain b = match pickMessage b with
            | (b', Some m) => (m :: fst (drain b'), snd (drain b'))
            | (_, None) => ([], b)
            end.
Proof.
  rewrite drain_equation_1.
  destruct (inspect (pickMessage b)) as [[b' [m|]] H].
  - rewrite drain_clause_1_equation_1, H. reflexivity.
  - rewrite drain_clause_1_equation_2, H. reflexivity.
Qed.

Lemma Z_of_byte_range (b : byte) : 0 <= Z_of_byte b < 256.
Proof.
  unfold Z_of_byte. pose proof (Byte.to_N_bounded b). lia.
Qed.

Lemma Z_of_byte_of_Z (z : Z) : Z_of_byte (byte_of_Z z) = z mod 256.
Proof.
  unfold Z_of_byte, byte_of_Z.
  assert (Hr : 0 <= z mod 256 < 256) by (apply Z.mod_pos_bound; lia).
  destruct (Byte.of_N (Z.to_N (z mod 256))) as [b|] eqn:E.
  - apply Byte.to_of_N in E. cbn. rewrite E. lia.
  - apply Byte.of_N_None_iff in E. lia.
Qed.

Lemma byte_of_Z_eq (z : Z) (b : byte) : z mod 256 = Z_of_byte b -> byte_of_Z z = b.
Proof.
  unfold byte_of_Z, Z_of_byte. intros ->.
  now rewrite N2Z.id, Byte.of_to_N.
Qed.

Lemma header_length (n : Z) : length (header_of n) = 4%nat.
Proof. reflexivity. Qed.

(** A length below [2^32] survives the trip through its header. *)
Lemma header_value_of (n : Z) : 0 <= n < 2 ^ 32 -> header_value (header_of n) = n.
Proof.
  intros Hn. unfold header_of, header_value.
  rewrite !Z_of_byte_of_Z.
  change (2 ^ 8) with 256. change (2 ^ 16) with 65536.
  change (2 ^ 24) with 16777216. change (2 ^ 32) with 4294967296 in Hn.
  Z.div_mod_to_equations. lia.
Qed.

(** Any four bytes are the header of the length they denote. *)
Lemma header_of_value (h : list byte) :
  length h = 4%nat -> header_of (header_value h) = h /\ 0 <= header_value h < 2 ^ 32.
Proof.
  destruct h as [|b0 [|b1 [|b2 [|b3 [|b4 h]]]]]; try discriminate. intros _.
  unfold header_of, header_value.
  pose proof (Z_of_byte_range b0). pose proof (Z_of_byte_range b1).
  pose proof (Z_of_byte_range b2). pose proof (Z_of_byte_range b3).
  change (2 ^ 8) with 256. change (2 ^ 16) with 65536.
  change (2 ^ 24) with 16777216. change (2 ^ 32) with 4294967296.
  split; [|lia].
  repeat f_equal; apply byte_of_Z_eq; Z.div_mod_to_equations; lia.
Qed.

Lemma pickMessage_frame (b : Buffer) (m rest : list byte) :
  m_sep b = 1 ->
  m_buf b = frame m ++ rest ->
  Z.of_nat (length m) < 2 ^ 32 ->
  pickMessage b = (mkBuffer rest 1, Some m).
Proof.
  destruct b as [buf sep]. cbn [m_sep m_buf]. intros -> -> Hlen.
  unfold pickMessage, erase, frame. cbn [m_sep m_buf].
  rewrite decide_True by reflexivity.
  rewrite decide_False by (rewrite !length_app, header_length; lia).
  rewrite <- !app_assoc.
  rewrite (take_app_length' (header_of _)) by reflexivity.
  rewrite header_value_of by lia. rewrite Nat2Z.id.
  rewrite decide_False by (rewrite !length_app, header_length; lia).
  rewrite (drop_app_length' (header_of _) _ 4) by reflexivity.
  rewrite take_app_length.
  change (0 + (4 + length m))%nat with (4 + length m)%nat.
  rewrite (drop_app_add' (header_of _)) by reflexivity.
  now rewrite drop_app_length.
Qed.

Lemma pickMessage_none (b b' : Buffer) : pickMessage b = (b', None) -> b' = b.
Proof.
  unfold pickMessage. intros H. repeat case_decide; now inversion H.
Qed.

Lemma pickMessage_some (b b' : Buffer) (m : list byte) :
  pickMessage b = (b', Some m) ->
  let len := Z.to_nat (header_value (take 4 (m_buf b))) in
  m_sep b = 1
  /\ (4 + len <= length (m_buf b))%nat
  /\ b' = mkBuffer (drop (4 + len) (m_buf b)) 1
  /\ m = take len (drop 4 (m_buf b)).
Proof.
  unfold pickMessage, erase. intros H.
  repeat case_decide; try discriminate H.
  inversion H; subst; clear H. cbn zeta.
  repeat split; try lia; try assumption.
  cbn. congruence.
Qed.

(** More bytes behind a complete message do not change what is extracted. *)
Lemma pickMessage_append (b b' : Buffer) (m data : list byte) :
  pickMessage b = (b', Some m) ->
  pickMessage (append data b) = (append data b', Some m).
Proof.
  intros H. apply pickMessage_some in H. cbn zeta in H.
  destruct H as (Hsep & Hlen & -> & ->).
  unfold pickMessage, append, erase. cbn [m_sep m_buf].
  rewrite (take_app_le _ _ 4) by lia.
  rewrite decide_True by exact Hsep.
  rewrite decide_False by (rewrite length_app; lia).
  rewrite decide_False by (rewrite length_app; lia).
  cbn [take app Nat.add].
  rewrite (drop_app_le _ _ 4) by lia.
  rewrite (drop_app_le _ data) by lia.
  rewrite (take_app_le (drop 4 _)) by (rewrite length_drop; lia).
  now rewrite Hsep.
Qed.

Lemma append_append (d1 d2 : list byte) (b : Buffer) :
  append d2 (append d1 b) = append (d1 ++ d2) b.
Proof. unfold append. cbn. now rewrite app_assoc. Qed.

Lemma append_nil (b : Buffer) : append [] b = b.
Proof. destruct b. unfold append. cbn. now rewrite app_nil_r. Qed.

(** Draining is incremental: bytes that arrive later can be appended to what
    an earlier drain left behind. *)
Lemma drain_append (data : list byte) (b : Buffer) :
  drain (append data b)
  = (fst (drain b) ++ fst (drain (append data (snd (drain b)))),
     snd (drain (append data (snd (drain b))))).
Proof.
  remember (length (m_buf b)) as n eqn:Hn. revert b Hn.
  induction n as [n IH] using lt_wf_ind. intros b ->.
  rewrite (drain_step b).
  destruct (pickMessage b) as [b1 [m|]] eqn:Hpick.
  - rewrite (drain_step (append data b)), (pickMessage_append _ _ _ _ Hpick).
    cbn [fst snd].
    rewrite (IH _ (pickMessage_shrinks _ _ _ Hpick) b1 eq_refl).
    reflexivity.
  - cbn [fst snd app]. now destruct (drain (append data b)).
Qed.

Lemma drain_drained (b : Buffer) : drain (snd (drain b)) = ([], snd (drain b)).
Proof.
  remember (length (m_buf b)) as n eqn:Hn. revert b Hn.
  induction n as [n IH] using lt_wf_ind. intros b ->.
  rewrite (drain_step b).
  destruct (pickMessage b) as [b1 [m|]] eqn:Hpick.
  - cbn [snd]. apply (IH _ (pickMessage_shrinks _ _ _ Hpick) b1 eq_refl).
  - cbn [snd]. rewrite (drain_step b), Hpick. reflexivity.
Qed.

(** Receiving chunk by chunk yields what one drain of all the bytes yields. *)
Lemma receive_chunks (chunks : list (list byte)) (acc : list (list byte)) (b : Buffer) :
  drain b = ([], b) ->
  foldl receive (acc, b) chunks
  = (acc ++ fst (drain (append (concat chunks) b)),
     snd (drain (append (concat chunks) b))).
Proof.
  revert acc b. induction chunks as [|c cs IH]; intros acc b Hb.
  - cbn [foldl concat]. rewrite append_nil, Hb. cbn. now rewrite app_nil_r.
  - cbn [foldl concat]. unfold receive at 2. cbn [fst snd].
    rewrite (IH _ _ (drain_drained (append c b))).
    rewrite <- append_append, (drain_append (concat cs) (append c b)).
    cbn [fst snd]. now rewrite app_assoc.
Qed.

Lemma append_chunks (chunks : list (list byte)) (b : Buffer) :
  foldl (fun b c => append c b) b chunks = append (concat chunks) b.
Proof.
  revert b. induction chunks as [|c cs IH]; intros b.
  - cbn. now rewrite append_nil.
  - cbn [foldl concat]. now rewrite IH, append_append.
Qed.

Lemma wire_frames (msgs : list (list byte)) : wire msgs = flat_map frame msgs.
Proof.
  unfold wire.
  assert (H : forall acc,
             foldl (fun b m => appendWithSep m b) (mkBuffer acc 1) msgs
             = mkBuffer (acc ++ flat_map frame msgs) 1).
  { induction msgs as [|m ms IH]; intros acc.
    - cbn. now rewrite app_nil_r.
    - cbn [foldl flat_map]. unfold appendWithSep at 2. cbn [m_sep m_buf].
      rewrite decide_True by reflexivity. rewrite IH.
      unfold frame. now rewrite <- !app_assoc. }
  now rewrite H.
Qed.

Lemma drain_frames (msgs : list (list byte)) :
  Forall (fun m => Z.of_nat (length m) < 2 ^ 32) msgs ->
  drain (mkBuffer (flat_map frame msgs) 1) = (msgs, mkBuffer [] 1).
Proof.
  induction 1 as [|m ms Hm _ IH].
  - rewrite drain_step. reflexivity.
  - rewrite drain_step. cbn [flat_map].
    rewrite (pickMessage_frame _ m (flat_map frame ms)) by (try reflexivity; exact Hm).
    now rewrite IH.
Qed.

(** Without a complete message at the front nothing is extracted. *)
Lemma pickMessage_incomplete (b : Buffer) :
  m_sep b = 1 ->
  (forall m rest, Z.of_nat (length m) < 2 ^ 32 -> m_buf b <> frame m ++ rest) ->
  pickMessage b = (b, None).
Proof.
  intros Hsep Hnone.
  destruct (pickMessage b) as [b' [m|]] eqn:Hpick.
  - exfalso. apply pickMessage_some in Hpick. cbn zeta in Hpick.
    destruct Hpick as (_ & Hlen & _ & Hm).
    set (h := take 4 (m_buf b)) in *.
    assert (Hh : length h = 4%nat) by (subst h; rewrite length_take; lia).
    destruct (header_of_value h Hh) as [Hhv Hrange].
    assert (Hml : length m = Z.to_nat (header_value h)).
    { subst m. rewrite length_take, length_drop. lia. }
    apply (Hnone m (drop (Z.to_nat (header_value h)) (drop 4 (m_buf b)))).
    + rewrite Hml. lia.
    + unfold frame. rewrite Hml, Z2Nat.id by lia. rewrite Hhv. subst m h.
      now rewrite <- app_assoc, take_drop, take_drop.
  - now rewrite (pickMessage_none _ _ Hpick).
Qed.

(** C7. Discipline 1.  Whatever messages (each short enough for its length
    to fit the four-byte header) a sender frames, and however the resulting
    bytes are cut into chunks: appending the chunks one by one and draining
    after each, or appending them all and draining once, extracts exactly
    those messages in order and leaves the buffer empty.  [pickMessage] is a
    total function; when no complete message is at the front it extracts
    nothing, and whenever it extracts nothing the buffer is unchanged. *)
Theorem framing_roundtrip (msgs chunks : list (list byte)) :
  Forall (fun m => Z.of_nat (length m) < 2 ^ 32) msgs ->
  concat chunks = wire msgs ->
  receive_all (mkBuffer [] 1) chunks = (msgs, mkBuffer [] 1)
  /\ drain (foldl (fun b c => append c b) (mkBuffer [] 1) chunks) = (msgs, mkBuffer [] 1)
  /\ (forall b, m_sep b = 1 ->
        (forall m rest, Z.of_nat (length m) < 2 ^ 32 -> m_buf b <> frame m ++ rest) ->
        pickMessage b = (b, None))
  /\ (forall b b', pickMessage b = (b', None) -> b' = b).
Proof.
  intros Hsmall Hwire.
  assert (Hall : drain (append (concat chunks) (mkBuffer [] 1)) = (msgs, mkBuffer [] 1)).
  { rewrite Hwire, wire_frames. unfold append. cbn [m_buf m_sep app].
    now apply drain_frames. }
  repeat split.
  - unfold receive_all. rewrite receive_chunks by (rewrite drain_step; reflexivity).
    now rewrite Hall.
  - now rewrite append_chunks.
  - apply pickMessage_incomplete.
  - apply pickMessage_none.
Qed.

(** C7 on two messages cut into three chunks that split both headers. *)
Lemma framing_roundtrip_witness :
  concat three_chunks = wire two_messages
  /\ receive_all (mkBuffer [] 1) three_chunks = (two_messages, mkBuffer [] 1).
Proof.
  split; [reflexivity|].
  exact (proj1 (framing_roundtrip two_messages three_chunks
                  ltac:(repeat (constructor; [reflexivity|]); constructor) eq_refl)).
Defined.

(** ** The interposed [connect] *)

Lemma load_config_keeps_original (sys : System) (g : Globals) :
  orig_connect (load_config sys g) = orig_connect g.
Proof.
  unfold load_config. destruct (g_bConfigLoaded g); [reflexivity|].
  destruct (config_file sys) as [[[[entries procs] start] end_]|]; reflexivity.
Qed.

(** The loop of [is_blocked] returns [true] exactly when it reaches an entry
    that matches after entries that neither match nor throw. *)
Lemma any_entry_blocks_iff (sys : System) (ip : string) (port : Z)
    (entries : list BlacklistEntry) :
  any_entry_blocks sys ip port entries = inr true
  <-> exists before entry after,
        entries = before ++ entry :: after
        /\ Forall (fun e => entry_blocks sys ip port e = inr false) before
        /\ entry_blocks sys ip port entry = inr true.
Proof.
  induction entries as [|e entries IH]; cbn [any_entry_blocks].
  - split; [discriminate|]. intros (before & entry & after & Heq & _).
    now destruct before.
  - destruct (entry_blocks sys ip port e) as [x|[|]] eqn:He; cbn.
    + split; [discriminate|]. intros (before & entry & after & Heq & Hall & Hhit).
      destruct before as [|e' before]; cbn in Heq; injection Heq as -> Heq.
      * rewrite He in Hhit. discriminate.
      * apply Forall_cons in Hall as [Hx _]. rewrite He in Hx. discriminate.
    + split; [|reflexivity]. intros _. exists [], e, entries.
      split; [reflexivity|]. split; [constructor | exact He].
    + rewrite IH. split.
      * intros (before & entry & after & -> & Hall & Hhit).
        exists (e :: before), entry, after.
        split; [reflexivity|]. split; [now constructor | exact Hhit].
      * intros (before & entry & after & Heq & Hall & Hhit).
        destruct before as [|e' before]; cbn in Heq; injection Heq as -> Heq.
        -- rewrite He in Hhit. discriminate.
        -- apply Forall_cons in Hall as [_ Hall].
           exists before, entry, after. now split.
Qed.

(** [is_blocked] returns [true] exactly when the current time is inside the
    intercept window, the target yields its address and port, and the loop
    over the blacklist reaches a matching entry. *)
Lemma is_blocked_iff (sys : System) (g : Globals) (target : InetAddr) :
  is_blocked sys g target = inr true
  <-> is_in_intercept_time sys g = true
      /\ exists ip port,
           getIp target = inr ip /\ getPort target = inr port
           /\ any_entry_blocks sys ip port (g_Blacklist g) = inr true.
Proof.
  unfold is_blocked.
  destruct (is_in_intercept_time sys g); cbn [negb].
  - destruct (getIp target) as [e|ip]; cbn.
    { split; [discriminate|]. intros (_ & ip & port & H & _). discriminate H. }
    destruct (getPort target) as [e|port]; cbn.
    { split; [discriminate|]. intros (_ & ip' & port & _ & H & _). discriminate H. }
    split.
    + intros H. split; [reflexivity|]. now exists ip, port.
    + intros (_ & ip' & port' & Hip & Hport & H).
      injection Hip as <-. injection Hport as <-. exact H.
  - split; [discriminate | intros [H _]; discriminate H].
Qed.

(** C8 (amended). After a call of the interposed [connect], with [g'] the
    globals it leaves: if the original [connect] could not be resolved the
    call returns -1 with [errno = EINVAL] and delegates nothing.  Otherwise a
    whitelisted process is delegated, whatever the address.  For a process
    that is not whitelisted: a family other than [AF_INET] and [AF_INET6] is
    delegated; for these two families, once [InetAddr(addr, addrlen)] is
    built, the call is refused with -1 and [errno = ECONNREFUSED], without
    calling the original, if [is_blocked] returns true, and is delegated if
    [is_blocked] returns false.  What is left is where the call neither
    refuses nor delegates: [addr] is null, or the constructor, [is_blocked]
    or the search for the log line throws. *)
Theorem connect_decision (InetAddr_of_sockaddr : sockaddr -> Z -> exn + InetAddr)
    (sys : System) (g : Globals) (sockfd : Z) (addr : option sockaddr) (addrlen : Z) :
  let '(g', out) := connect InetAddr_of_sockaddr sys g sockfd addr addrlen in
  match orig_connect g' with
  | None =>
      orig_connect g = None /\ dlsym_next_connect sys = None
      /\ ending out = Returned (-1) (Some EINVAL) /\ delegated out = None
  | Some original =>
      if is_proc_whitelisted sys g' then delegates original sockfd addr addrlen out
      else
        match addr with
        | None => ending out = NullDereference /\ delegated out = None
        | Some sa =>
            if (sa_family sa =? AF_INET) || (sa_family sa =? AF_INET6) then
              match InetAddr_of_sockaddr sa addrlen with
              | inl e => ending out = Thrown e /\ delegated out = None
              | inr target =>
                  match is_blocked sys g' target with
                  | inl e => ending out = Thrown e /\ delegated out = None
                  | inr true =>
                      match find_matched_url sys target (g_Blacklist g') with
                      | inl e => ending out = Thrown e /\ delegated out = None
                      | inr _ => refuses out
                      end
                  | inr false => delegates original sockfd addr addrlen out
                  end
              end
            else delegates original sockfd addr addrlen out
        end
  end.
Proof.
  unfold connect. cbv zeta.
  pose proof (load_config_keeps_original sys g) as Hkeep.
  assert (Hwith : forall (f : connect_fn) (g2 : Globals),
            orig_connect g2 = Some f ->
            let '(g', out) :=
              if is_proc_whitelisted sys g2
              then (g2, call_original f sockfd addr addrlen
                          [LogWhitelisted (get_current_proc_path sys)])
              else
                match addr with
                | None => (g2, mkOutcome NullDereference None [])
                | Some sa =>
                    if negb (sa_family sa =? AF_INET) && negb (sa_family sa =? AF_INET6)
                    then (g2, call_original f sockfd addr addrlen [])
                    else
                      match InetAddr_of_sockaddr sa addrlen with
                      | inl e => (g2, mkOutcome (Thrown e) None [])
                      | inr target_addr =>
                          match is_blocked sys g2 target_addr with
                          | inl e => (g2, mkOutcome (Thrown e) None [])
                          | inr true =>
                              match find_matched_url sys target_addr (g_Blacklist g2) with
                              | inl e => (g2, mkOutcome (Thrown e) None [])
                              | inr matched_url =>
                                  (g2, mkOutcome (Returned (-1) (Some ECONNREFUSED)) None
                                         [LogBlocked (get_current_proc_path sys)
                                            target_addr matched_url])
                              end
                          | inr false =>
                              (g2, call_original f sockfd addr addrlen
                                     [LogAllowed (get_current_proc_path sys) target_addr])
                          end
                      end
                end in
            match orig_connect g' with
            | None =>
                orig_connect g = None /\ dlsym_next_connect sys = None
                /\ ending out = Returned (-1) (Some EINVAL) /\ delegated out = None
            | Some original =>
                if is_proc_whitelisted sys g'
                then delegates original sockfd addr addrlen out
                else
                  match addr with
                  | None => ending out = NullDereference /\ delegated out = None
                  | Some sa =>
                      if (sa_family sa =? AF_INET) || (sa_family sa =? AF_INET6) then
                        match InetAddr_of_sockaddr sa addrlen with
                        | inl e => ending out = Thrown e /\ delegated out = None
                        | inr target =>
                            match is_blocked sys g' target with
                            | inl e => ending out = Thrown e /\ delegated out = None
                            | inr true =>
                                match find_matched_url sys target (g_Blacklist g') with
                                | inl e => ending out = Thrown e /\ delegated out = None
                                | inr _ => refuses out
                                end
                            | inr false => delegates original sockfd addr addrlen out
                            end
                        end
                      else delegates original sockfd addr addrlen out
                  end
            end).
  { intros f g2 Hg2.
    assert (Hdel : forall log,
              delegates f sockfd addr addrlen
                        (call_original f sockfd addr addrlen log)).
    { intros log. unfold delegates, call_original.
      destruct (f sockfd addr addrlen). split; reflexivity. }
    destruct (is_proc_whitelisted sys g2) eqn:Hw.
    { rewrite Hg2, Hw. apply Hdel. }
    destruct addr as [sa|].
    2:{ rewrite Hg2, Hw. split; reflexivity. }
    destruct (sa_family sa =? AF_INET) eqn:H4;
      destruct (sa_family sa =? AF_INET6) eqn:H6; cbn [negb andb orb];
      try (rewrite Hg2, Hw; apply Hdel);
      (destruct (InetAddr_of_sockaddr sa addrlen) as [e|target];
       [rewrite Hg2, Hw; split; reflexivity|];
       destruct (is_blocked sys g2 target) as [e|[|]] eqn:Hb;
       [ rewrite Hg2, Hw, Hb; split; reflexivity
       | destruct (find_matched_url sys target (g_Blacklist g2)) as [e|matched] eqn:Hm;
         rewrite Hg2, Hw, Hb, Hm; split; reflexivity
       | rewrite Hg2, Hw, Hb; apply Hdel ]). }
  destruct (orig_connect (load_config sys g)) as [f|] eqn:Horig.
  - apply Hwith. reflexivity.
  - destruct (dlsym_next_connect sys) as [f|] eqn:Hdl.
    + apply Hwith. reflexivity.
    + cbn. rewrite <- Hkeep. repeat split.
Qed.

(** C8 as stated fails.  A whitelisted process whose original [connect]
    cannot be resolved gets -1 with [EINVAL], and nothing is delegated.  A
    process that is not whitelisted and passes a null address is neither
    refused nor delegated: the address is read before any test.  With a
    constructor that refuses the length, an [AF_INET] call that no blacklist
    entry matches is left by the exception and is not delegated either. *)
Lemma connect_neither_refuses_nor_delegates :
  (exists g' out,
     connect (bounded_InetAddr loopback_target) whitelisted_curl fresh_globals 3
             (Some loopback_http) 16 = (g', out)
     /\ is_proc_whitelisted whitelisted_curl g' = true
     /\ ending out = Returned (-1) (Some EINVAL)
     /\ delegated out = None)
  /\ (exists g' out,
        connect (bounded_InetAddr loopback_target) plain_wget fresh_globals 3 None 0
        = (g', out)
        /\ is_proc_whitelisted plain_wget g' = false
        /\ orig_connect g' = Some libc_connect
        /\ ending out = NullDereference
        /\ delegated out = None)
  /\ (exists g' out,
        connect (bounded_InetAddr loopback_target) plain_wget fresh_globals 3
                (Some loopback_http) 200 = (g', out)
        /\ is_proc_whitelisted plain_wget g' = false
        /\ orig_connect g' = Some libc_connect
        /\ g_Blacklist g' = []
        /\ ending out = Thrown (InvalidArgument "address length out of range")
        /\ delegated out = None).
Proof.
  split; [|split]; eexists _, _; repeat split.
Qed.


(** * Further properties of the thread pool *)

(** ** The policy setters *)

Lemma set_policy_call_shared {D} (p : ThreadPool D) (c : PolicyCall) :
  m_taskQueue (set_policy_call p c) = m_taskQueue p
  /\ m_stop (set_policy_call p c) = m_stop p
  /\ m_workers (set_policy_call p c) = m_workers p
  /\ m_maxQueueSize (set_policy_call p c) = m_maxQueueSize p
  /\ m_activeWorkers (set_policy_call p c) = m_activeWorkers p
  /\ m_dynamic (set_policy_call p c) = m_dynamic p.
Proof.
  destruct c as [| |ms]; cbn; try (repeat split; reflexivity).
  unfold setTimeoutPolicy. destruct (ms <=? 0); repeat split.
Qed.

(** X1. Whatever calls a client makes to [setRejectPolicy], [setBlockPolicy]
    and [setTimeoutPolicy], with throwing calls caught, a positive
    [m_timeoutMS] stays positive, and nothing but the policy and the timeout
    changes; a request for a timeout that is not positive throws
    [std::invalid_argument] and changes neither. *)
Theorem policy_setters_keep_timeout_positive {D} (calls : list PolicyCall)
    (p : ThreadPool D) :
  0 < m_timeoutMS p ->
  let p' := foldl set_policy_call p calls in
  0 < m_timeoutMS p'
  /\ m_taskQueue p' = m_taskQueue p
  /\ m_stop p' = m_stop p
  /\ m_workers p' = m_workers p
  /\ m_maxQueueSize p' = m_maxQueueSize p
  /\ (forall ms, ms <= 0 ->
        setTimeoutPolicy ms p' = inl (InvalidArgument "Timeout must be greater than 0")
        /\ set_policy_call p' (CallSetTimeout ms) = p').
Proof.
  revert p. induction calls as [|c calls IH]; intros p Hpos; cbn [foldl].
  - repeat split; try assumption;
      unfold set_policy_call, setTimeoutPolicy;
      (replace (ms <=? 0) with true by (symmetry; apply Z.leb_le; assumption));
      reflexivity.
  - assert (Hc : 0 < m_timeoutMS (set_policy_call p c)).
    { destruct c as [| |ms]; cbn; try assumption.
      unfold setTimeoutPolicy. destruct (ms <=? 0) eqn:E; cbn; [assumption|].
      apply Z.leb_gt in E. exact E. }
    destruct (set_policy_call_shared p c) as (Hq & Hs & Hw & Hm & _).
    destruct (IH _ Hc) as (H1 & H2 & H3 & H4 & H5 & H6).
    cbn zeta in *. rewrite H2, H3, H4, H5. repeat split; try assumption; apply H6; assumption.
Qed.

(** X1 on a pool fresh from the fixed-mode constructor. *)
Lemma policy_setters_keep_timeout_positive_witness :
  0 < m_timeoutMS (snd (ThreadPool_fixed (mkWorld 0 []) 2 4))
  /\ m_timeoutMS (foldl set_policy_call (snd (ThreadPool_fixed (mkWorld 0 []) 2 4))
                    [CallSetTimeout 30; CallSetBlock; CallSetTimeout (-5)]) = 30.
Proof.
  split; [reflexivity|].
  pose proof (policy_setters_keep_timeout_positive
                [CallSetTimeout 30; CallSetBlock; CallSetTimeout (-5)]
                (snd (ThreadPool_fixed (mkWorld 0 []) 2 4)) eq_refl) as H.
  reflexivity.
Defined.

(** ** [addTask] and the queue bound *)

Lemma addTask_unbounded {D} (fuel : nat) (task : Task) (env : Schedule)
    (w : World) (p : ThreadPool D) :
  m_stop p = false ->
  m_maxQueueSize p = 0 ->
  addTask fuel task env (w, p)
  = mkRun Succeeded (emit (EvNotifyNotEmpty false) w)
          (set_taskQueue (m_taskQueue p ++ [task]) p) env 0.
Proof.
  intros Hs Hmax. unfold addTask. rewrite Hs, Hmax. cbn. now rewrite Hs.
Qed.

Lemma perform_unbounded {D} (fuel : nat) (c : Call) (w : World) (p : ThreadPool D) :
  m_stop p = false ->
  m_maxQueueSize p = 0 ->
  perform fuel (w, p) c
  = (emit (EvNotifyNotEmpty false) w,
     set_taskQueue (m_taskQueue p ++ [call_task c]) p, Some true).
Proof.
  intros Hs Hmax. destruct c as [t|id]; unfold perform, submitTask;
    rewrite addTask_unbounded by assumption; reflexivity.
Qed.

(** X3. On a running pool whose queue is unbounded ([m_maxQueueSize == 0])
    every call of [addTask] and [submitTask] of a sequence returns true,
    whatever the policy; the tasks are at the back of the queue in the order
    of the calls, and each call notified one worker. *)
Theorem unbounded_queue_accepts_in_order {D} (fuel : nat) (cs : list Call)
    (w : World) (p : ThreadPool D) :
  m_stop p = false ->
  m_maxQueueSize p = 0 ->
  let '(w', p', results) := perform_all fuel (w, p) cs in
  results = replicate (length cs) (Some true)
  /\ m_taskQueue p' = m_taskQueue p ++ (call_task <$> cs)
  /\ trace w' = trace w ++ replicate (length cs) (EvNotifyNotEmpty false)
  /\ m_stop p' = false
  /\ m_workers p' = m_workers p
  /\ m_dynamic p' = m_dynamic p.
Proof.
  revert w p. induction cs as [|c cs IH]; intros w p Hs Hmax.
  - cbn. rewrite !app_nil_r. repeat split. exact Hs.
  - cbn [perform_all]. rewrite perform_unbounded by assumption.
    specialize (IH (emit (EvNotifyNotEmpty false) w)
                   (set_taskQueue (m_taskQueue p ++ [call_task c]) p) Hs Hmax).
    destruct (perform_all fuel _ cs) as [[w' p'] results].
    destruct IH as (-> & -> & -> & Hs' & -> & ->).
    cbn. rewrite <- !app_assoc. repeat split. exact Hs'.
Qed.

(** X3 on a fixed pool of two workers: a task and two submissions. *)
Lemma unbounded_queue_accepts_in_order_witness :
  let p := snd (ThreadPool_fixed (mkWorld 0 []) 2 0) in
  m_stop p = false
  /\ m_maxQueueSize p = 0
  /\ snd (perform_all 0 (mkWorld 2 [], p)
            [CallSubmitTask 7; CallAddTask (mkTask 8 true None); CallSubmitTask 9])
     = [Some true; Some true; Some true].
Proof.
  cbv zeta. split; [reflexivity|]. split; [reflexivity|].
  pose proof (unbounded_queue_accepts_in_order 0
                [CallSubmitTask 7; CallAddTask (mkTask 8 true None); CallSubmitTask 9]
                (mkWorld 2 []) (snd (ThreadPool_fixed (mkWorld 0 []) 2 0))
                eq_refl eq_refl) as H.
  destruct (perform_all 0 _ _) as [[w' p'] results].
  destruct H as (-> & _). reflexivity.
Defined.

Lemma addTask_loop_exit {D} (fuel : nat) (env env' : Schedule) (p p' : ThreadPool D)
    (t t' : Z) :
  addTask_loop fuel env p t = inr (p', env', t') ->
  queue_full p' && negb (m_stop p') = false.
Proof.
  revert env p t. induction fuel as [|fuel IH]; intros env p t; cbn [addTask_loop];
    [discriminate|].
  destruct (queue_full p && negb (m_stop p)) eqn:Hcond.
  - destruct (m_queueFullPolicy p); [discriminate| |].
    + destruct (cv_wait not_full_or_stopped env p) as [[p1 env1]|]; [|discriminate].
      apply IH.
    + destruct (cv_wait_for not_full_or_stopped (m_timeoutMS p) env p)
        as [[[result p1] env1] spent].
      destruct (negb result); [discriminate|]. apply IH.
  - intros Heq. injection Heq as <- _ _. exact Hcond.
Qed.

Lemma addTask_loop_max {D} (fuel : nat) (env env' : Schedule) (p p' : ThreadPool D)
    (t t' : Z) :
  addTask_loop fuel env p t = inr (p', env', t') ->
  m_maxQueueSize p' = m_maxQueueSize p.
Proof.
  revert env p t. induction fuel as [|fuel IH]; intros env p t; cbn [addTask_loop];
    [discriminate|].
  destruct (queue_full p && negb (m_stop p)) eqn:Hcond.
  - destruct (m_queueFullPolicy p); [discriminate| |].
    + pose proof (cv_wait_spec env p) as Hwait.
      destruct (cv_wait not_full_or_stopped env p) as [[p1 env1]|]; [|discriminate].
      destruct Hwait as (k & _ & -> & ->). intros Heq.
      rewrite (IH _ _ _ Heq). apply state_after_policy.
    + pose proof (cv_wait_for_spec env (m_timeoutMS p) p) as Hwait.
      destruct (cv_wait_for not_full_or_stopped (m_timeoutMS p) env p)
        as [[[result p1] env1] spent].
      destruct Hwait as (_ & _ & Hin).
      destruct (observed_is_state_after _ _ _ _ Hin) as [k ->].
      destruct (negb result); [discriminate|]. intros Heq.
      rewrite (IH _ _ _ Heq). apply state_after_policy.
  - intros Heq. injection Heq as <- _ _. reflexivity.
Qed.

(** X4. Whatever the other threads do while the caller waits, and whatever the
    policy, a call of [addTask] on a pool with a bounded queue that returns
    true leaves the task at the back of a queue of at most [m_maxQueueSize]
    tasks, on a pool that is running. *)
Theorem addTask_respects_capacity {D} (fuel : nat) (task : Task) (env : Schedule)
    (w : World) (p : ThreadPool D) :
  0 < m_maxQueueSize p ->
  run_completion (addTask fuel task env (w, p)) = Succeeded ->
  let p' := run_pool (addTask fuel task env (w, p)) in
  Z.of_nat (length (m_taskQueue p')) <= m_maxQueueSize p
  /\ last (m_taskQueue p') = Some task
  /\ m_stop p' = false
  /\ m_maxQueueSize p' = m_maxQueueSize p.
Proof.
  intros Hmax. unfold addTask.
  destruct (m_stop p) eqn:Hs; [discriminate|].
  rewrite (proj2 (Z.ltb_lt _ _) Hmax).
  destruct (addTask_loop fuel env p 0) as [[[[c p1] env1] waited]|[[p1 env1] waited]] eqn:Hloop.
  - cbn. intros ->.
    exfalso. revert Hloop. clear. revert env p. generalize 0 at 1.
    induction fuel as [|fuel IH]; intros t env p; cbn [addTask_loop]; [discriminate|].
    destruct (queue_full p && negb (m_stop p)); [|discriminate].
    destruct (m_queueFullPolicy p); [discriminate| |].
    + destruct (cv_wait not_full_or_stopped env p) as [[p2 env2]|]; [|discriminate].
      apply IH.
    + destruct (cv_wait_for not_full_or_stopped (m_timeoutMS p) env p)
        as [[[result p2] env2] spent].
      destruct (negb result); [discriminate|]. apply IH.
  - pose proof (addTask_loop_exit _ _ _ _ _ _ _ Hloop) as Hexit.
    pose proof (addTask_loop_max _ _ _ _ _ _ _ Hloop) as Hm.
    destruct (m_stop p1) eqn:Hs1; [discriminate|]. intros _. cbn.
    rewrite andb_true_r in Hexit. unfold queue_full in Hexit.
    apply Z.leb_gt in Hexit. rewrite Hm in Hexit.
    rewrite length_app, last_snoc. cbn. repeat split; [lia | exact Hs1 | exact Hm].
Qed.

(** X4 on a full queue of capacity one under the block policy: a worker
    takes the queued task and the caller's task becomes the only one. *)
Lemma addTask_respects_capacity_witness :
  0 < m_maxQueueSize full_blocking_pool
  /\ run_completion (addTask 2 (mkTask 2 true None) [(3, ISpurious); (4, IPop)]
                       (mkWorld 1 [], full_blocking_pool)) = Succeeded
  /\ Z.of_nat (length (m_taskQueue
                         (run_pool (addTask 2 (mkTask 2 true None)
                                      [(3, ISpurious); (4, IPop)]
                                      (mkWorld 1 [], full_blocking_pool))))) <= 1.
Proof.
  split; [reflexivity|]. split; [reflexivity|].
  exact (proj1 (addTask_respects_capacity 2 (mkTask 2 true None)
                  [(3, ISpurious); (4, IPop)] (mkWorld 1 []) full_blocking_pool
                  eq_refl eq_refl)).
Defined.

(** ** From submission to execution *)

Lemma runs_notifies (n : nat) b : runs (replicate n (EvNotifyNotEmpty b)) = [].
Proof. induction n as [|n IH]; [reflexivity|exact IH]. Qed.

(** X5. Tasks handed to a running pool with an unbounded, empty queue are run
    by a worker thread in the order of the calls: with fuel for one pass per
    task and one more, the thread runs every callable task once, in
    submission order, and parks on the empty queue. *)
Theorem accepted_tasks_run_in_order {D} (fuel wfuel tid : nat) (cs : list Call)
    (w : World) (p : ThreadPool D) :
  m_stop p = false ->
  m_maxQueueSize p = 0 ->
  exit_requested p = false ->
  m_taskQueue p = [] ->
  (length cs < wfuel)%nat ->
  exists w' p',
    worker wfuel tid (fst (perform_all fuel (w, p) cs)) = (w', p', ParkedOnQueue)
    /\ runs (trace w') = runs (trace w) ++ flat_map task_runs (call_task <$> cs)
    /\ m_taskQueue p' = []
    /\ m_stop p' = false.
Proof.
  intros Hs Hmax Hx Hq Hfuel.
  pose proof (unbounded_queue_accepts_in_order fuel cs w p Hs Hmax) as Hacc.
  destruct (perform_all fuel (w, p) cs) as [[w1 p1] results].
  destruct Hacc as (_ & Hq1 & Htr1 & Hs1 & _ & Hd1).
  rewrite Hq in Hq1. cbn [app] in Hq1.
  unfold worker, worker_prologue. cbn [fst snd].
  destruct (if_dynamic_idle_shared (fun i => SizeT.add i 1) p1)
    as (Hs2 & Hx2 & Hq2 & _).
  assert (Hx1 : exit_requested p1 = false).
  { rewrite <- Hx. unfold exit_requested. destruct D; [|reflexivity].
    cbn. now rewrite Hd1. }
  destruct (worker_loop_drains wfuel tid w1
              (if_dynamic (fun d => set_idleThreads (SizeT.add (idleThreads d) 1) d) p1))
    as (w' & p' & Hloop & Hq' & Hs' & _ & Hr' & _).
  - now rewrite Hs2.
  - now rewrite Hx2.
  - rewrite Hq2, Hq1, length_fmap. exact Hfuel.
  - exists w', p'. split; [exact Hloop|].
    rewrite Hr', Hq2, Hq1, Htr1. unfold runs at 1. rewrite omap_app.
    fold (runs (trace w)). fold (runs (replicate (length cs) (EvNotifyNotEmpty false))).
    rewrite runs_notifies, app_nil_r. repeat split; assumption.
Qed.

(** X5 on a fixed pool: three submissions are run as 7, 8, 9. *)
Lemma accepted_tasks_run_in_order_witness :
  exists w' p',
    worker 4 0 (fst (perform_all 0 (mkWorld 1 [], snd (ThreadPool_fixed (mkWorld 0 []) 1 0))
                       [CallSubmitTask 7; CallSubmitTask 8; CallSubmitTask 9]))
    = (w', p', ParkedOnQueue)
    /\ runs (trace w') = [7; 8; 9]%nat.
Proof.
  destruct (accepted_tasks_run_in_order 0 4 0
              [CallSubmitTask 7; CallSubmitTask 8; CallSubmitTask 9]
              (mkWorld 1 []) (snd (ThreadPool_fixed (mkWorld 0 []) 1 0))
              eq_refl eq_refl eq_refl eq_refl (le_n 4))
    as (w' & p' & Hrun & Hruns & _).
  exists w', p'. split; [exact Hrun | exact Hruns].
Defined.

(** ** The manager's clean-up step, exactly *)

Lemma joined_join_thread (w : World) (th : thread) :
  joined (trace (join_thread w th)) = joined (trace w) ++ option_list (joinable_id th).
Proof.
  destruct th as [|tid]; cbn; [now rewrite app_nil_r|].
  unfold joined. now rewrite omap_app.
Qed.

Lemma reap_fold_exact (ids : list nat) (w : World) (ws : gmap nat thread) :
  let st := foldl reap_one (w, ws) ids in
  (forall id, snd st !! id = if decide (id ∈ ids) then None else ws !! id)
  /\ (NoDup ids ->
      joined (trace (fst st))
      = joined (trace w) ++ omap (fun id => ws !! id ≫= joinable_id) ids).
Proof.
  revert w ws. induction ids as [|i ids IH]; intros w ws.
  - cbn. split; [|intros _; now rewrite app_nil_r].
    intros id. rewrite decide_False by apply not_elem_of_nil. reflexivity.
  - change (foldl reap_one (w, ws) (i :: ids))
      with (foldl reap_one (reap_one (w, ws) i) ids).
    destruct (reap_one (w, ws) i) as [w1 ws1] eqn:E.
    assert (Hstep : ws1 !! i = None
                    /\ (forall id, id <> i -> ws1 !! id = ws !! id)
                    /\ joined (trace w1)
                       = joined (trace w) ++ option_list (ws !! i ≫= joinable_id)).
    { unfold reap_one in E. destruct (ws !! i) as [th|] eqn:Hi; injection E as <- <-.
      - split; [apply lookup_delete_eq|]. split.
        + intros id Hne. apply lookup_delete_ne. congruence.
        + apply joined_join_thread.
      - split; [exact Hi|]. split; [reflexivity|]. cbn. now rewrite app_nil_r. }
    destruct Hstep as (Hi & Hother & Hjoin).
    destruct (IH w1 ws1) as [Hlook Hjoined]. cbn zeta. split.
    + intros id. rewrite Hlook.
      destruct (decide (id = i)) as [->|Hne].
      * rewrite (decide_True (P := i ∈ i :: ids)) by apply list_elem_of_here.
        rewrite Hi. now destruct (decide (i ∈ ids)).
      * rewrite (Hother id Hne).
        destruct (decide (id ∈ ids)) as [Hin|Hnin].
        -- rewrite decide_True by now apply list_elem_of_further. reflexivity.
        -- rewrite decide_False; [reflexivity|].
           intros Hin. apply elem_of_cons in Hin as [?|?]; contradiction.
    + intros Hnd. apply NoDup_cons in Hnd as [Hnin Hnd].
      rewrite (Hjoined Hnd), Hjoin, <- app_assoc. f_equal.
      cbn [omap list_omap].
      assert (Hrest : omap (fun id => ws1 !! id ≫= joinable_id) ids
                      = omap (fun id => ws !! id ≫= joinable_id) ids).
      { apply list_omap_ext. apply Forall2_same_length_lookup_2; [reflexivity|].
        intros k x y Hx Hy. rewrite Hx in Hy. injection Hy as <-.
        rewrite Hother; [reflexivity|].
        intros ->. apply Hnin. eapply list_elem_of_lookup_2. exact Hx. }
      rewrite Hrest. destruct (ws !! i ≫= joinable_id); reflexivity.
Qed.

(** X6. The clean-up step of a manager cycle takes the whole exit-id deque:
    afterwards the deque is empty and [m_workers] has lost exactly the ids
    that were reported, an id that is not a key being skipped; when no id was
    reported twice, the threads joined are the reported workers that were
    joinable, in the order of the deque.  No thread is created, and the
    queue, the stop flag and the active count are untouched. *)
Theorem reap_removes_reported_workers (w : World) (p : ThreadPool true) :
  let reported := workerExitId_deque (m_dynamic p) in
  let workers : gmap nat thread := m_workers p in
  let w' := fst (reap (w, p)) in
  let p' := snd (reap (w, p)) in
  workerExitId_deque (m_dynamic p') = []
  /\ (forall id, (m_workers p' : gmap nat thread) !! id
                 = if decide (id ∈ reported) then None else workers !! id)
  /\ (NoDup reported ->
      joined (trace w')
      = joined (trace w) ++ omap (fun id => workers !! id ≫= joinable_id) reported)
  /\ next_tid w' = next_tid w
  /\ m_taskQueue p' = m_taskQueue p
  /\ m_stop p' = m_stop p
  /\ m_activeWorkers p' = m_activeWorkers p.
Proof.
  cbv zeta. unfold reap.
  pose proof (reap_fold_exact (workerExitId_deque (m_dynamic p)) w (m_workers p))
    as Hexact.
  cbn zeta in Hexact.
  assert (Htid : next_tid
                   (fst (foldl reap_one (w, (m_workers p : gmap nat thread))
                           (workerExitId_deque (m_dynamic p)))) = next_tid w).
  { clear. generalize (m_workers p : gmap nat thread) as ws.
    generalize (workerExitId_deque (m_dynamic p)) as ids. revert w.
    intros w ids. revert w. induction ids as [|i ids IH]; intros w ws; [reflexivity|].
    change (foldl reap_one (w, ws) (i :: ids))
      with (foldl reap_one (reap_one (w, ws) i) ids).
    unfold reap_one at 2. destruct (ws !! i) as [[|tid]|]; rewrite IH; reflexivity. }
  destruct (foldl reap_one _ _) as [w1 ws1]. cbn [fst snd] in *.
  destruct Hexact as [Hlook Hjoined].
  repeat split; try assumption.
Qed.

(** ** What [stop] and the destructor join *)

Lemma joined_join_all (ths : list thread) (w : World) :
  joined (trace (foldl join_thread w ths)) = joined (trace w) ++ omap joinable_id ths
  /\ next_tid (foldl join_thread w ths) = next_tid w.
Proof.
  revert w. induction ths as [|th ths IH]; intros w.
  - cbn. now rewrite app_nil_r.
  - cbn [foldl]. destruct (IH (join_thread w th)) as [-> ->].
    rewrite joined_join_thread, <- app_assoc. split.
    + f_equal. cbn [omap list_omap]. now destruct (joinable_id th).
    + now destruct th.
Qed.

Lemma stop_manager_exact {D} (w : World) (p : ThreadPool D) :
  let st := stop_manager (w, p) in
  m_stop (snd st) = m_stop p
  /\ m_taskQueue (snd st) = m_taskQueue p
  /\ m_workers (snd st) = m_workers p
  /\ joined (trace (fst st))
     = joined (trace w)
       ++ option_list (dynamic_get (fun d => joinable_id (managerThread d)) None p)
  /\ next_tid (fst st) = next_tid w
  /\ dynamic_get (fun d => managerThread d = NotAThread /\ workerExitId_deque d = [])
                 True (snd st).
Proof.
  destruct D; cbn.
  - rewrite joined_join_thread.
    assert (Hnote : joined (trace (emit EvNotifyManager w)) = joined (trace w)).
    { unfold joined. cbn [emit trace]. rewrite omap_app. cbn. now rewrite app_nil_r. }
    rewrite Hnote. repeat split. now destruct (managerThread (m_dynamic p)).
  - rewrite app_nil_r. repeat split.
Qed.

(** X7. [stop] on a running pool sets the flag, joins the manager thread (in
    dynamic mode, if it is joinable) and then every joinable thread of
    [m_workers] once, in the order of the container, and leaves the container
    empty; in dynamic mode the manager's thread object is reset and the
    exit-id deque is empty.  The destructor does the same on a running pool
    and nothing on a stopped one. *)
Theorem stop_joins_every_worker {D} (w : World) (p : ThreadPool D) :
  m_stop p = false ->
  let w' := fst (stop (w, p)) in
  let p' := snd (stop (w, p)) in
  m_stop p' = true
  /\ getWorkerNum p' = 0
  /\ joined (trace w')
     = joined (trace w)
       ++ option_list (dynamic_get (fun d => joinable_id (managerThread d)) None p)
       ++ omap joinable_id (workers_threads (m_workers p))
  /\ dynamic_get (fun d => managerThread d = NotAThread /\ workerExitId_deque d = [])
                 True p'
  /\ next_tid w' = next_tid w
  /\ m_taskQueue p' = m_taskQueue p
  /\ destroy (w, p) = stop (w, p)
  /\ destroy (w', p') = (w', p').
Proof.
  intros Hs. cbv zeta.
  assert (Hdestroy : destroy (w, p) = stop (w, p)).
  { unfold destroy. cbn [snd]. now rewrite Hs. }
  rewrite Hdestroy.
  unfold stop, compare_exchange_strong. rewrite Hs.
  rewrite bool_decide_eq_true_2 by reflexivity. cbn [negb].
  pose proof (stop_manager_exact w (set_stop true p)) as Hm. cbn zeta in Hm.
  destruct (stop_manager (w, set_stop true p)) as [w1 p1]. cbn [fst snd] in *.
  destruct Hm as (Hs1 & Hq1 & Hw1 & Hj1 & Ht1 & Hd1).
  destruct (joined_join_all (workers_threads (m_workers p1))
              (emit (EvNotifyNotFull true) (emit (EvNotifyNotEmpty true) w1)))
    as [Hj Ht].
  rewrite Hj, Ht, Hw1. cbn [emit trace next_tid].
  assert (Hnote : joined ((trace w1 ++ [EvNotifyNotEmpty true]) ++ [EvNotifyNotFull true])
                  = joined (trace w1)).
  { unfold joined. rewrite !omap_app. cbn. now rewrite !app_nil_r. }
  rewrite Hnote, Hj1, <- app_assoc.
  assert (Hdyn : dynamic_get (fun d => joinable_id (managerThread d)) None (set_stop true p)
                 = dynamic_get (fun d => joinable_id (managerThread d)) None p)
    by (destruct D; reflexivity).
  rewrite Hdyn.
  split; [exact Hs1|].
  split; [destruct D; reflexivity|].
  split; [reflexivity|].
  split; [destruct D; [exact Hd1 | exact I]|].
  split; [exact Ht1|].
  split; [exact Hq1|].
  split; [reflexivity|].
  unfold destroy. cbn [snd m_stop set_workers]. now rewrite Hs1.
Qed.

(** X7 on a fixed pool of three workers. *)
Lemma stop_joins_every_worker_witness :
  m_stop (snd (ThreadPool_fixed (mkWorld 0 []) 3 0)) = false
  /\ joined (trace (fst (stop (ThreadPool_fixed (mkWorld 0 []) 3 0)))) = [0; 1; 2]%nat
  /\ getWorkerNum (snd (stop (ThreadPool_fixed (mkWorld 0 []) 3 0))) = 0.
Proof.
  split; [reflexivity|].
  destruct (stop_joins_every_worker (fst (ThreadPool_fixed (mkWorld 0 []) 3 0))
              (snd (ThreadPool_fixed (mkWorld 0 []) 3 0)) eq_refl)
    as (_ & Hnum & Hjoined & _).
  split; [exact Hjoined | exact Hnum].
Defined.

(** ** A manager cycle with no worker left *)

(** X11. A manager cycle is undefined exactly when the pool is running, the
    clean-up step leaves no worker, tasks are queued and [maxThreads] is
    positive: the scale-up estimate then divides by the worker count, which
    is zero.  In every other state the cycle completes. *)
Theorem manager_cycle_divides_by_zero (w : World) (p : ThreadPool true) :
  manager_cycle (w, p) = None
  <-> m_stop p = false
      /\ getWorkerNum (snd (reap (w, p))) = 0
      /\ 0 < getTaskNum p
      /\ 0 < maxThreads (m_dynamic p).
Proof.
  pose proof (reap_observed w p) as Hreap. cbn zeta in Hreap.
  destruct Hreap as (_ & _ & _ & Hq & _ & Hmax & _).
  assert (HT : getTaskNum (snd (reap (w, p))) = getTaskNum p)
    by (unfold getTaskNum; now rewrite Hq).
  split.
  - intros Hnone.
    destruct (m_stop p) eqn:Hs.
    { unfold manager_cycle in Hnone. cbn [snd] in Hnone. rewrite Hs in Hnone.
      discriminate Hnone. }
    destruct (decide (getWorkerNum (snd (reap (w, p))) = 0)) as [HW|HW].
    2:{ destruct (manager_cycle_defined w p HW) as (w' & p' & Heq).
        rewrite Heq in Hnone. discriminate Hnone. }
    split; [reflexivity|]. split; [exact HW|].
    unfold manager_cycle in Hnone. cbn [snd] in Hnone. rewrite Hs in Hnone.
    rewrite <- HT, <- Hmax.
    destruct (reap (w, p)) as [w1 p1]. cbn [snd] in *.
    unfold rebalance in Hnone. rewrite HW in Hnone.
    change (SizeT.mul 0 2) with 0 in Hnone.
    destruct (0 <? getTaskNum p1) eqn:H1; destruct (0 <? maxThreads (m_dynamic p1)) eqn:H2;
      cbn [andb] in Hnone.
    + apply Z.ltb_lt in H1, H2. split; assumption.
    + repeat match type of Hnone with
             | context [if ?c then _ else _] => destruct c
             end; discriminate Hnone.
    + repeat match type of Hnone with
             | context [if ?c then _ else _] => destruct c
             end; discriminate Hnone.
    + repeat match type of Hnone with
             | context [if ?c then _ else _] => destruct c
             end; discriminate Hnone.
  - intros (Hs & HW & HT0 & Hmax0).
    unfold manager_cycle. cbn [snd]. rewrite Hs.
    rewrite <- HT in HT0. rewrite <- Hmax in Hmax0.
    destruct (reap (w, p)) as [w1 p1]. cbn [snd] in *.
    unfold rebalance. rewrite HW.
    change (SizeT.mul 0 2) with 0.
    rewrite (proj2 (Z.ltb_lt _ _) HT0), (proj2 (Z.ltb_lt _ _) Hmax0).
    cbn [andb]. unfold SizeT.div. now rewrite decide_True.
Qed.

(** * Further properties of the shim *)

(** ** [is_valid_ip] *)

Lemma count_dots_spec (cs : list ascii) (n : Z) :
  count_dots cs n
  = if forallb digit_or_dot cs
    then Some (n + Z.of_nat (count_occ ascii_dec cs "."%char))
    else None.
Proof.
  revert n. induction cs as [|c cs IH]; intros n; cbn [count_dots forallb count_occ].
  - now rewrite Z.add_0_r.
  - unfold digit_or_dot at 1.
    destruct (isdigit c) eqn:Hd; cbn [negb andb orb].
    + rewrite IH. destruct (forallb digit_or_dot cs); [|reflexivity].
      case_bool_decide as Hc.
      * subst c. discriminate Hd.
      * destruct (ascii_dec c ".") as [->|_]; [contradiction|reflexivity].
    + case_bool_decide as Hc; cbn [negb]; [|reflexivity].
      subst c. rewrite IH. destruct (forallb digit_or_dot cs); [|reflexivity].
      destruct (ascii_dec "." ".") as [_|Hne]; [|contradiction].
      f_equal. lia.
Qed.

Lemma find_colon_digits (cs : list ascii) (b : bool) :
  forallb digit_or_dot cs = true -> find_colon cs b = Some b.
Proof.
  revert b. induction cs as [|c cs IH]; intros b; cbn [find_colon forallb];
    [reflexivity|].
  intros H. apply andb_true_iff in H as [Hc Hcs].
  assert (Hcolon : bool_decide (c = ":"%char) = false).
  { apply bool_decide_eq_false_2. intros ->. discriminate Hc. }
  rewrite Hcolon, (IH b Hcs).
  unfold digit_or_dot in Hc. apply orb_true_iff in Hc as [Hd|Hdot].
  - now rewrite Hd.
  - rewrite Hdot. cbn. now rewrite andb_false_r.
Qed.

(** X8. [is_valid_ip] accepts exactly the strings that consist of decimal
    digits and dots with three dots among them.  Its second loop, written
    for IPv6, is reached only by strings of digits and dots, which have no
    colon: no string with a colon is accepted. *)
Theorem is_valid_ip_iff (str : string) :
  let cs := String.list_ascii_of_string str in
  is_valid_ip str
  = forallb digit_or_dot cs && (count_occ ascii_dec cs "."%char =? 3)%nat
  /\ (In ":"%char cs -> is_valid_ip str = false).
Proof.
  cbv zeta. unfold is_valid_ip.
  assert (Hmain : match count_dots (String.list_ascii_of_string str) 0 with
                  | None => false
                  | Some dot_count =>
                      if dot_count =? 3 then true
                      else default false
                             (find_colon (String.list_ascii_of_string str) false)
                  end
                  = forallb digit_or_dot (String.list_ascii_of_string str)
                    && (count_occ ascii_dec (String.list_ascii_of_string str) "."%char
                        =? 3)%nat).
  { rewrite count_dots_spec.
    destruct (forallb digit_or_dot (String.list_ascii_of_string str)) eqn:Hall;
      [|reflexivity].
    rewrite (find_colon_digits _ false Hall). cbn [andb default].
    generalize (count_occ ascii_dec (String.list_ascii_of_string str) "."%char) as n.
    intros n. rewrite Z.add_0_l.
    destruct (Nat.eqb_spec n 3) as [->|Hne]; [reflexivity|].
    destruct (Z.eqb_spec (Z.of_nat n) 3) as [Heq|_]; [lia | reflexivity]. }
  split; [exact Hmain|].
  intros Hin. rewrite Hmain.
  destruct (forallb digit_or_dot (String.list_ascii_of_string str)) eqn:Hall;
    [|reflexivity].
  rewrite forallb_forall in Hall. specialize (Hall _ Hin). discriminate Hall.
Qed.

(** ** The whitelist and the [/usr/bin] simplification *)

Lemma substring_all (s : string) : String.substring 0 (String.length s) s = s.
Proof. induction s as [|c s IH]; [reflexivity|]. cbn. now rewrite IH. Qed.

Lemma app_String (c : ascii) (s x : string) : String c s +:+ x = String c (s +:+ x).
Proof. reflexivity. Qed.

Lemma app_empty (x : string) : "" +:+ x = x.
Proof. reflexivity. Qed.

Lemma simplify_bin_usr (x : string) :
  simplify_bin ("/usr/bin/" +:+ x) = "/bin/bin/" +:+ x.
Proof.
  unfold simplify_bin.
  assert (Hp : String.prefix "/usr/bin/" ("/usr/bin/" +:+ x) = true).
  { apply String.prefix_correct. rewrite !app_String, app_empty.
    cbn [String.substring String.length]. now destruct x. }
  rewrite Hp.
  change ("/bin" +:+ String.substring 4 (String.length ("/usr/bin/" +:+ x) - 4)
                       ("/usr/bin/" +:+ x))
    with ("/bin/bin/" +:+ String.substring 0 (String.length x) x).
  now rewrite substring_all.
Qed.

Lemma prefix_usr_bin (s : string) :
  String.prefix "/usr/bin/" s = true -> exists y, s = "/usr/bin/" +:+ y.
Proof.
  intros H.
  do 9 (destruct s as [|c s]; [discriminate H|];
        cbn [String.prefix] in H;
        match type of H with
        | (if ascii_dec ?a c then _ else _) = true =>
            destruct (ascii_dec a c) as [<-|_]; [|discriminate H]
        end).
  now exists s.
Qed.

Lemma simplify_bin_to (x white : string) :
  simplify_bin white = "/bin/bin/" +:+ x
  <-> white = "/usr/bin/" +:+ x \/ white = "/bin/bin/" +:+ x.
Proof.
  split.
  - intros H. destruct (String.prefix "/usr/bin/" white) eqn:Hp.
    + destruct (prefix_usr_bin _ Hp) as [y ->]. rewrite simplify_bin_usr in H.
      left. apply (inj (String.append "/bin/bin/")) in H. now subst y.
    + right. unfold simplify_bin in H. now rewrite Hp in H.
  - intros [->| ->]; [apply simplify_bin_usr|].
    unfold simplify_bin.
    assert (Hp : String.prefix "/usr/bin/" ("/bin/bin/" +:+ x) = false).
    { destruct (String.prefix "/usr/bin/" ("/bin/bin/" +:+ x)) eqn:Hp; [|reflexivity].
      apply String.prefix_correct in Hp. rewrite !app_String, app_empty in Hp.
      cbn [String.substring String.length] in Hp. discriminate Hp. }
    now rewrite Hp.
Qed.

(** X9. For a process under [/usr/bin], the simplification rewrites
    [/usr/bin/x] to [/bin/bin/x], not to [/bin/x]: the process is whitelisted
    exactly when the list holds [/usr/bin/x] or [/bin/bin/x], and a list that
    holds only [/bin/x] does not whitelist it. *)
Theorem usr_bin_whitelisting (x : string) (sys : System) (g : Globals) :
  proc_exe sys = Some ("/usr/bin/" +:+ x) ->
  simplify_bin ("/usr/bin/" +:+ x) = "/bin/bin/" +:+ x
  /\ (is_proc_whitelisted sys g = true
      <-> ("/usr/bin/" +:+ x) ∈ g_WhitelistProcs g
          \/ ("/bin/bin/" +:+ x) ∈ g_WhitelistProcs g)
  /\ (g_WhitelistProcs g = ["/bin/" +:+ x] -> is_proc_whitelisted sys g = false).
Proof.
  intros Hexe.
  assert (Hiff : is_proc_whitelisted sys g = true
                 <-> ("/usr/bin/" +:+ x) ∈ g_WhitelistProcs g
                     \/ ("/bin/bin/" +:+ x) ∈ g_WhitelistProcs g).
  { unfold is_proc_whitelisted, get_current_proc_path. rewrite Hexe.
    assert (Hne : "/usr/bin/" +:+ x <> "")
      by (rewrite app_String; discriminate).
    rewrite !(bool_decide_eq_false_2 _ Hne).
    rewrite simplify_bin_usr, existsb_exists. split.
    - intros (white & Hin & Hm). apply list_elem_of_In in Hin.
      apply orb_true_iff in Hm as [Hm|Hm]; apply bool_decide_eq_true_1 in Hm.
      + left. now rewrite Hm.
      + symmetry in Hm. apply simplify_bin_to in Hm as [->| ->]; [now left | now right].
    - intros [Hin|Hin]; apply list_elem_of_In in Hin.
      + exists ("/usr/bin/" +:+ x). split; [exact Hin|].
        apply orb_true_iff. left. now apply bool_decide_eq_true_2.
      + exists ("/bin/bin/" +:+ x). split; [exact Hin|].
        apply orb_true_iff. right. now apply bool_decide_eq_true_2. }
  split; [apply simplify_bin_usr|]. split; [exact Hiff|].
  intros Hwl. destruct (is_proc_whitelisted sys g) eqn:Hw; [|reflexivity].
  exfalso. rewrite Hwl in Hiff.
  destruct (proj1 Hiff eq_refl) as [Hin|Hin]; apply list_elem_of_singleton in Hin;
    rewrite !app_String, !app_empty in Hin.
  - discriminate Hin.
  - injection Hin as Hin.
    apply (f_equal String.length) in Hin. cbn in Hin. lia.
Qed.

(** X9 for [curl]: listed as [/bin/curl], it is not whitelisted. *)
Lemma usr_bin_whitelisting_witness :
  proc_exe whitelisted_curl = Some ("/usr/bin/" +:+ "curl")
  /\ is_proc_whitelisted whitelisted_curl
       (mkGlobals [] ["/bin/curl"] (mkTimeRange 0 2400) true None) = false.
Proof.
  split; [reflexivity|].
  exact (proj2 (proj2 (usr_bin_whitelisting "curl" whitelisted_curl
                         (mkGlobals [] ["/bin/curl"] (mkTimeRange 0 2400) true None)
                         eq_refl)) eq_refl).
Defined.

(** ** The globals after the first call *)

Lemma connect_globals (InetAddr_of_sockaddr : sockaddr -> Z -> exn + InetAddr)
    (sys : System) (g : Globals) (sockfd : Z) (addr : option sockaddr) (addrlen : Z) :
  fst (connect InetAddr_of_sockaddr sys g sockfd addr addrlen)
  = let g1 := load_config sys g in
    mkGlobals (g_Blacklist g1) (g_WhitelistProcs g1) (g_InterceptTime g1)
              (g_bConfigLoaded g1)
              (match orig_connect g1 with
               | Some f => Some f
               | None => dlsym_next_connect sys
               end).
Proof.
  unfold connect. cbv zeta.
  repeat match goal with
         | |- context [match ?c with _ => _ end] =>
             lazymatch c with
             | context [match _ with _ => _ end] => fail
             | _ => destruct c
             end
         end; reflexivity.
Qed.

Lemma load_config_loaded (sys : System) (g : Globals) :
  g_bConfigLoaded (load_config sys g) = true.
Proof.
  unfold load_config. destruct (g_bConfigLoaded g) eqn:E; [exact E|].
  destruct (config_file sys) as [[[[entries procs] start] end_]|]; reflexivity.
Qed.

Lemma load_config_idem (sys : System) (g : Globals) :
  g_bConfigLoaded g = true -> load_config sys g = g.
Proof. intros H. unfold load_config. now rewrite H. Qed.

(** X10. The first call of the interposed [connect] marks the configuration
    as loaded, whether or not the file could be opened and whatever the
    call's own outcome.  Once the original [connect] is resolved as well, no
    later call changes the globals: the blacklist, the whitelist and the
    intercept window are those of the first call even if the configuration
    file has changed since, and [dlsym] is not consulted again. *)
Theorem connect_loads_config_once
    (ctor ctor' : sockaddr -> Z -> exn + InetAddr) (sys sys' : System) (g : Globals)
    (sockfd sockfd' : Z) (addr addr' : option sockaddr) (addrlen addrlen' : Z) :
  let g1 := fst (connect ctor sys g sockfd addr addrlen) in
  g_bConfigLoaded g1 = true
  /\ g_Blacklist g1 = g_Blacklist (load_config sys g)
  /\ g_WhitelistProcs g1 = g_WhitelistProcs (load_config sys g)
  /\ g_InterceptTime g1 = g_InterceptTime (load_config sys g)
  /\ (orig_connect g1 <> None ->
      fst (connect ctor' sys' g1 sockfd' addr' addrlen') = g1)
  /\ (orig_connect g1 = None ->
      orig_connect g = None /\ dlsym_next_connect sys = None
      /\ orig_connect (fst (connect ctor' sys' g1 sockfd' addr' addrlen'))
         = dlsym_next_connect sys').
Proof.
  cbv zeta. rewrite (connect_globals ctor sys g). cbv zeta.
  pose proof (load_config_loaded sys g) as Hl.
  pose proof (load_config_keeps_original sys g) as Hk.
  set (resolved := match orig_connect (load_config sys g) with
                   | Some f => Some f
                   | None => dlsym_next_connect sys
                   end).
  set (g1 := mkGlobals _ _ _ _ resolved).
  rewrite (connect_globals ctor' sys' g1). cbv zeta.
  rewrite (load_config_idem sys' g1 Hl).
  subst g1. cbn [g_bConfigLoaded g_Blacklist g_WhitelistProcs g_InterceptTime
                 orig_connect].
  split; [exact Hl|]. do 3 (split; [reflexivity|]).
  split.
  - intros Hsome. rewrite Hl.
    destruct resolved as [f|]; [reflexivity | contradiction].
  - intros Hnone. rewrite Hnone. subst resolved.
    destruct (orig_connect (load_config sys g)) as [f|] eqn:Ho; [discriminate Hnone|].
    rewrite <- Hk. repeat split; assumption.
Qed.

(** ** Times of day as text and as numbers *)

Lemma two_digits_facts (n : Z) :
  0 <= n <= 59 ->
  exists a b,
    two_digits n = String a (String b "")
    /\ a <> " "%char /\ b <> " "%char /\ a <> ":"%char /\ b <> ":"%char
    /\ strtol (c_str (String a (String b ""))) = (n, "").
Proof.
  intros Hn.
  assert (Hk : exists k : nat, n = Z.of_nat k /\ (k < 60)%nat)
    by (exists (Z.to_nat n); lia).
  destruct Hk as (k & -> & Hk).
  do 60 (destruct k as [|k];
         [eexists _, _; split; [reflexivity|];
          repeat (split; [discriminate|]); reflexivity|]).
  lia.
Qed.

(** X12. A time of day between 00:00 and 24:00 survives the round trip
    through its text: [hhmm_to_str] prints hours and minutes with two digits
    each around a colon, and [str_to_hhmm] reads that text back as the number
    it came from, given that [deleteLRchr] leaves a string with no space at
    either end as it is. *)
Theorem hhmm_roundtrip (deleteLRchr : string -> string) (hour min : Z) :
  (forall s, trimmed s = true -> deleteLRchr s = s) ->
  0 <= hour <= 24 ->
  0 <= min <= 59 ->
  (hour = 24 -> min = 0) ->
  hhmm_to_str (hour * 100 + min) = two_digits hour +:+ ":" +:+ two_digits min
  /\ str_to_hhmm deleteLRchr (hhmm_to_str (hour * 100 + min)) = Some (hour * 100 + min).
Proof.
  intros Htrim Hh Hm H24.
  assert (Hstr : hhmm_to_str (hour * 100 + min)
                 = two_digits hour +:+ ":" +:+ two_digits min).
  { unfold hhmm_to_str.
    rewrite Z.quot_div_nonneg, Z.rem_mod_nonneg by lia.
    rewrite Z.div_add_l, (Z.div_small min 100), Z.add_0_r by lia.
    rewrite (Z.add_comm (hour * 100) min), Z.mod_add, (Z.mod_small min 100) by lia.
    cbv zeta.
    rewrite (proj2 (Z.ltb_ge hour 0)), (proj2 (Z.ltb_ge 24 hour)) by lia.
    rewrite (proj2 (Z.ltb_ge min 0)), (proj2 (Z.ltb_ge 59 min)) by lia.
    reflexivity. }
  split; [exact Hstr|]. rewrite Hstr.
  destruct (two_digits_facts hour ltac:(lia)) as (a & b & -> & Ha & Hb & Ha' & Hb' & Hhour).
  destruct (two_digits_facts min Hm) as (c & d & -> & Hc & Hd & Hc' & Hd' & Hmin).
  rewrite !app_String, !app_empty.
  unfold str_to_hhmm.
  assert (Hclean : forall x y rest,
            x <> " "%char -> y <> " "%char ->
            trimmed (String x (rest +:+ String y "")) = true).
  { intros x y rest Hx Hy. unfold trimmed.
    rewrite (bool_decide_eq_false_2 _ Hx). cbn [negb andb].
    apply negb_true_iff, bool_decide_eq_false_2.
    replace (String.list_ascii_of_string (String x (rest +:+ String y "")))
      with ((x :: String.list_ascii_of_string rest) ++ [y]).
    - rewrite last_snoc. congruence.
    - cbn. f_equal. clear. induction rest as [|r rest IH]; [reflexivity|].
      cbn. rewrite IH. reflexivity. }
  pose proof (Hclean a d (String b (String ":" (String c ""))) Ha Hd) as Hall.
  pose proof (Hclean a b "" Ha Hb) as Hfst.
  pose proof (Hclean c d "" Hc Hd) as Hsnd.
  rewrite !app_String, app_empty in Hall. rewrite app_empty in Hfst, Hsnd.
  rewrite (Htrim _ Hall).
  assert (Hidx : String.index 0 ":"
                   (String a (String b (String ":" (String c (String d "")))))
                 = Some 2%nat).
  { cbn [String.index String.prefix].
    destruct (ascii_dec ":" a) as [E|_]; [congruence|].
    destruct (ascii_dec ":" b) as [E|_]; [congruence|].
    destruct (ascii_dec ":" ":") as [_|E]; [reflexivity | congruence]. }
  rewrite Hidx.
  cbn [Nat.ltb Nat.leb orb String.length String.substring Nat.add Nat.sub].
  rewrite (Htrim _ Hfst), (Htrim _ Hsnd).
  rewrite Hhour, Hmin.
  rewrite bool_decide_eq_true_2 by reflexivity. cbn [negb orb].
  rewrite (proj2 (Z.ltb_ge hour 0)), (proj2 (Z.ltb_ge 24 hour)) by lia.
  rewrite (proj2 (Z.ltb_ge min 0)), (proj2 (Z.ltb_ge 59 min)) by lia.
  destruct (Z.eqb_spec hour 24) as [E|_]; [|reflexivity].
  rewrite (H24 E). reflexivity.
Qed.

(** X12 at 09:05, with spaces stripped at both ends. *)
Lemma hhmm_roundtrip_witness :
  hhmm_to_str 905 = "09:05"
  /\ str_to_hhmm strip "09:05" = Some 905.
Proof.
  assert (Htrim : forall s, trimmed s = true -> strip s = s).
  { intros s H. unfold strip.
    assert (Hdrop : forall l, head l <> Some " "%char -> drop_spaces l = l).
    { intros [|c l] Hc; [reflexivity|]. cbn.
      rewrite bool_decide_eq_false_2; [reflexivity|]. intros ->. now apply Hc. }
    assert (Hends : head (String.list_ascii_of_string s) <> Some " "%char
                    /\ last (String.list_ascii_of_string s) <> Some " "%char).
    { destruct s as [|c s]; [split; discriminate|].
      cbn [trimmed] in H. apply andb_true_iff in H as [Hc Hlast].
      apply negb_true_iff, bool_decide_eq_false_1 in Hc, Hlast.
      split; [cbn; congruence | exact Hlast]. }
    destruct Hends as [Hhead Hlast].
    rewrite (Hdrop _ Hhead).
    rewrite Hdrop by now rewrite head_reverse.
    rewrite reverse_involutive. apply String.string_of_list_ascii_of_string. }
  destruct (hhmm_roundtrip strip 9 5 Htrim) as [Hto Hfrom]; [lia | lia | lia |].
  split; [exact Hto | exact Hfrom].
Defined.
